(** * Paraxial: ABCD transfer operators, rays and Gaussian beams

    A shallow embedding of [paraxial/surfaces.py] and [paraxial/sources.py].

    Python numbers are duck-typed: the same method bodies run on ints,
    floats, complex numbers and exact rationals.  The embedding follows
    that: the code is written once over an interface of numeric
    operations ([PyNum]) and instantiated at
    - [float]: IEEE binary64, Python's [float] (ints such as the default
      coefficients 0 and 1 are represented by the equal floats, which
      behave the same in every operation used here);
    - [Qc]: exact rationals (Python's [int] / [fractions.Fraction]);
    - [R] and [complex R]: exact reals and complex numbers, for the
      Gaussian beam;
    - [pycomplex]: Python's [complex], a pair of binary64 floats.

    Objects live in a store indexed by locations, so that "a new object is
    returned" and "the operand is left alone" are statements about the
    store. *)

From Stdlib Require Import ZArith Floats QArith Qcanon Reals Lra String Bool.
From stdpp Require Import base option gmap.

Local Open Scope bool_scope.

(** ** Exceptions and results *)

Inductive exn : Type :=
| ZeroDivisionError
| ValueError (msg : string)
| TypeError
| AttributeError.

Inductive result (A : Type) : Type :=
| Ok (a : A)
| Raise (e : exn).
Arguments Ok {A} a.
Arguments Raise {A} e.

Definition rbind {A B : Type} (m : result A) (k : A -> result B) : result B :=
  match m with
  | Ok a => k a
  | Raise e => Raise e
  end.

Declare Scope py_scope.
Delimit Scope py_scope with py.
Notation "'let*' x ':=' m 'in' k" := (rbind m (fun x => k))
  (at level 10, x name, m at level 100, k at level 200) : py_scope.

(** ** The numeric interface *)

(** [ptruediv] is Python's [/]: it raises [ZeroDivisionError] (here [None])
    on a zero divisor.  [peqb] is Python's [==]. *)
Class PyNum (T : Type) : Type := {
  pzero : T;
  pone : T;
  padd : T -> T -> T;
  psub : T -> T -> T;
  pmul : T -> T -> T;
  pneg : T -> T;
  ptruediv : T -> T -> option T;
  peqb : T -> T -> bool
}.

Declare Scope num_scope.
Delimit Scope num_scope with num.
Infix "+" := padd : num_scope.
Infix "-" := psub : num_scope.
Infix "*" := pmul : num_scope.
Notation "- x" := (pneg x) : num_scope.
Infix "==" := peqb (at level 70, no associativity) : num_scope.

(** [x / y] as a step of a computation that may raise. *)
Definition pdiv {T : Type} `{PyNum T} (x y : T) : result T :=
  match ptruediv x y with
  | Some q => Ok q
  | None => Raise ZeroDivisionError
  end.

(** A real operand meeting a value of the ray's number type ([float] with
    [float], [float] with [complex]): Python converts the real operand. *)
Class Coerce (S V : Type) : Type := coerce : S -> V.
#[global] Instance coerce_id (S : Type) : Coerce S S | 10 := fun x => x.

(** *** binary64 *)

Definition float_truediv (x y : float) : option float :=
  if PrimFloat.eqb y 0%float then None else Some (PrimFloat.div x y).

#[global] Instance float_num : PyNum float := {|
  pzero := 0%float;
  pone := 1%float;
  padd := PrimFloat.add;
  psub := PrimFloat.sub;
  pmul := PrimFloat.mul;
  pneg := PrimFloat.opp;
  ptruediv := float_truediv;
  peqb := PrimFloat.eqb
|}.

(** *** exact rationals *)

Definition Qc_eqb (x y : Qc) : bool := Qeq_bool x y.

Definition Qc_truediv (x y : Qc) : option Qc :=
  if Qc_eqb y 0%Qc then None else Some (x / y)%Qc.

#[global] Instance Qc_num : PyNum Qc := {|
  pzero := 0%Qc;
  pone := 1%Qc;
  padd := Qcplus;
  psub := Qcminus;
  pmul := Qcmult;
  pneg := Qcopp;
  ptruediv := Qc_truediv;
  peqb := Qc_eqb
|}.

(** [math.inf] next to the numbers of the interface.  Binary64 has its own
    infinity, exact rationals do not; the embedding keeps the constant
    symbolic so that the same code runs on both. *)
Inductive xnum (T : Type) : Type :=
| Finite (x : T)
| PosInf
| NegInf.
Arguments Finite {T} x.
Arguments PosInf {T}.
Arguments NegInf {T}.

(** [.real] and [.imag] of a value. *)
Class PyParts (K V : Type) : Type := {
  real : V -> K;
  imag : V -> K
}.

(** [complex(re, im)]: the value with the given parts. *)
Class PyComplexOf (K V : Type) : Type := complex_of : K -> K -> V.

(** [math.pi] and [x ** 0.5]. *)
Class PyMath (K : Type) : Type := {
  math_pi : K;
  pow_half : K -> K
}.

(** ** sources.py *)

Inductive ray_class : Type :=
| ClsRay
| ClsGaussianBeam.

Module sources.
Section Sources.
Context {K V : Type} {numK : PyNum K} {numV : PyNum V} {cKV : Coerce K V}.

(** [class Ray]; [cls] records whether the object is a plain [Ray] or a
    [GaussianBeam], which [copy.deepcopy] preserves. *)
Record Ray : Type := mkRay {
  cls : ray_class; y : V; u : V; n : K; lam0 : K
}.

(** [Ray.__init__(self, y, u, n, lam0)] *)
Definition Ray_init (y0 u0 : V) (n0 l0 : K) : Ray := mkRay ClsRay y0 u0 n0 l0.

(** [Ray.__eq__] on scalar attributes. *)
Definition Ray_eq (self other : Ray) : bool :=
  (y self == y other)%num && (u self == u other)%num
  && (n self == n other)%num && (lam0 self == lam0 other)%num.

(** The keyword-only arguments of [GaussianBeam.__init__]; [None] is the
    default of [q], [R], [w], [z], [zR]. *)
Record gb_args : Type := mkGbArgs {
  arg_lam0 : K; arg_n : K; arg_sign : K;
  arg_q : option V; arg_R : option (xnum K);
  arg_w : option K; arg_z : option K; arg_zR : option K
}.

(** The closed-form solvers of the [equations] module, which
    [GaussianBeam.__init__] calls; the constructor is parametric in them. *)
Record solvers : Type := mkSolvers {
  q_from_R_w : xnum K -> K -> K -> K -> result V;
  q_from_z_zR : K -> K -> K -> result V;
  q_from_R_z : xnum K -> K -> K -> result V;
  q_from_R_zR : xnum K -> K -> K -> K -> result V;
  q_from_w_z : K -> K -> K -> K -> K -> result V;
  q_from_w_zR : K -> K -> K -> K -> K -> result V
}.

Variable equations : solvers.

(** [R == 0] for an optional argument: [None == 0] is [False]. *)
Definition opt_is_zero (o : option K) : bool :=
  match o with
  | Some x => (x == pzero)%num
  | None => false
  end.

Definition optx_is_zero (o : option (xnum K)) : bool :=
  match o with
  | Some (Finite x) => (x == pzero)%num
  | _ => false
  end.

Definition invalid_w_zR : string := "Invalid argument w or zR".
Definition no_valid_configuration : string :=
  "No valid configuration for beam found".

(** The [if]/[elif] chain that selects and runs a solver, after [R] has
    been normalised. *)
Definition GaussianBeam_qr (a : gb_args) (R : option (xnum K)) : result V :=
  match arg_q a, R, arg_w a, arg_z a, arg_zR a with
  | Some q, _, _, _, _ => pdiv q (coerce (arg_n a))
  | None, Some r, Some w, _, _ => q_from_R_w equations r w (arg_lam0 a) (arg_n a)
  | None, _, _, Some z, Some zR => q_from_z_zR equations z zR (arg_n a)
  | None, Some r, _, Some z, _ => q_from_R_z equations r z (arg_n a)
  | None, Some r, _, _, Some zR =>
      q_from_R_zR equations r zR (arg_n a) (arg_sign a)
  | None, _, Some w, Some z, _ =>
      q_from_w_z equations w z (arg_lam0 a) (arg_n a) (arg_sign a)
  | None, _, Some w, _, Some zR =>
      q_from_w_zR equations w zR (arg_lam0 a) (arg_n a) (arg_sign a)
  | _, _, _, _, _ => Raise (ValueError no_valid_configuration)
  end.

(** [GaussianBeam.__init__] *)
Definition GaussianBeam_init (a : gb_args) : result Ray :=
  let R := if optx_is_zero (arg_R a) then Some PosInf else arg_R a in
  if opt_is_zero (arg_w a) || opt_is_zero (arg_zR a)
  then Raise (ValueError invalid_w_zR)
  else
    (let* qr := GaussianBeam_qr a R in
     let* u0 := pdiv pone (coerce (arg_n a) * qr)%num in
     Ok (mkRay ClsGaussianBeam pone u0 (arg_n a) (arg_lam0 a)))%py.

(** *** Derived properties of a beam *)
Context {partsKV : PyParts K V} {mathK : PyMath K}.

(** [GaussianBeam.q] *)
Definition q (self : Ray) : result V := pdiv (y self) (u self).

(** [GaussianBeam.z] *)
Definition z (self : Ray) : result K :=
  (let* q0 := q self in Ok (real q0))%py.

(** [GaussianBeam.zR] *)
Definition zR (self : Ray) : result K :=
  (let* q0 := q self in Ok (imag q0))%py.

(** [GaussianBeam.w0] *)
Definition w0 (self : Ray) : result K :=
  (let* zR0 := zR self in
   let* x := pdiv (lam0 self * zR0)%num (n self * math_pi)%num in
   Ok (pow_half x))%py.

(** [GaussianBeam.θ] *)
Definition theta (self : Ray) : result K :=
  (let* w00 := w0 self in
   let* zR0 := zR self in
   pdiv w00 zR0)%py.
End Sources.
Arguments Ray K V : clear implicits.
Arguments gb_args K V : clear implicits.
Arguments solvers K V : clear implicits.
End sources.

(** ** surfaces.py *)

Definition loc : Type := positive.

(** What a Python expression evaluates to here: an object, or [None]. *)
Inductive pyval : Type :=
| VObj (l : loc)
| VNone.

(** [math.sin], [math.cos], [math.asin]; [asin] raises outside [-1, 1]. *)
Class PyTrig (K : Type) : Type := {
  math_sin : K -> K;
  math_cos : K -> K;
  math_asin : K -> result K
}.

(** [try: body except ZeroDivisionError: return handler] *)
Definition try_except_ZeroDivisionError {T : Type}
    (body : result T) (handler : T) : result T :=
  match body with
  | Raise ZeroDivisionError => Ok handler
  | other => other
  end.

(** [>=] and [<] between real numbers. *)
Class PyOrd (K : Type) : Type := {
  pgeb : K -> K -> bool;
  pltb : K -> K -> bool
}.

(** The int literal [2]. *)
Definition ptwo {K : Type} {numK : PyNum K} : K := (pone + pone)%num.

Section BeamRadius.
Context {K V : Type} {numK : PyNum K} {numV : PyNum V} {cKV : Coerce K V}.
Context {partsKV : PyParts K V}.

(** [GaussianBeam.R], the radius of curvature of the wavefront (named
    apart from the real numbers [R]): the whole body, the evaluation of
    [self.q] included, is inside the [try]. *)
Definition GaussianBeam_R (self : sources.Ray K V) : result (xnum K) :=
  try_except_ZeroDivisionError
    (let* q0 := sources.q self in
     let* inv := pdiv pone q0 in
     let real0 := real inv in
     let* r := pdiv pone real0 in
     Ok (Finite r))%py
    PosInf.
End BeamRadius.

(** [str.lower] on ASCII letters. *)
Definition ascii_lower (c : Ascii.ascii) : Ascii.ascii :=
  let k := Ascii.nat_of_ascii c in
  if Nat.leb 65 k && Nat.leb k 90 then Ascii.ascii_of_nat (k + 32) else c.

Fixpoint str_lower (s : string) : string :=
  match s with
  | EmptyString => EmptyString
  | String c rest => String (ascii_lower c) (str_lower rest)
  end.

Module surfaces.
Import sources.
Section Surfaces.
Context {K V : Type} {numK : PyNum K} {numV : PyNum V} {cKV : Coerce K V}.

(** [class ABCD]: the attributes set by [__init__]. *)
Record ABCD : Type := mkABCD {
  A : K; B : K; C : K; D : K; E : K; F : K; n1 : K; n2 : K
}.

(** The keyword arguments of [ABCD.__init__] that the element
    constructors pass through as [**kwargs]; [None] is "not given". *)
Record kwargs : Type := mkKwargs {
  kw_n1 : option K; kw_n2 : option K;
  kw_disp : option K; kw_tilt : option K; kw_length : option K;
  kw_E : option K; kw_F : option K
}.

Definition no_kwargs : kwargs := mkKwargs None None None None None None None.

(** [ABCD.__init__(self, A, B, C, D, n1=1, n2=1, disp=0, tilt=0,
    length=0, E=None, F=None)] *)
Definition ABCD_init (a b c d : K) (kw : kwargs) : ABCD :=
  let n1 := default pone (kw_n1 kw) in
  let n2 := default pone (kw_n2 kw) in
  let disp := default pzero (kw_disp kw) in
  let tilt := default pzero (kw_tilt kw) in
  let length := default pzero (kw_length kw) in
  mkABCD a b c d
    (match kw_E kw with
     | None => (pone - a) * disp + (length - n1 * b) * tilt
     | Some e => e
     end)%num
    (match kw_F kw with
     | None => - c * disp + (n2 - n1 * d) * tilt
     | Some f => f
     end)%num
    n1 n2.

(** [ABCD()] with every default: the identity operator. *)
Definition ABCD_default : ABCD := ABCD_init pone pzero pzero pone no_kwargs.

(** [ABCD.__eq__] *)
Definition ABCD_eq (self other : ABCD) : bool :=
  (A self == A other)%num && (B self == B other)%num
  && (C self == C other)%num && (D self == D other)%num
  && (E self == E other)%num && (F self == F other)%num.

(** [ABCD.__matmul__], the [isinstance(other, ABCD)] branch. *)
Definition matmul_ABCD (self other : ABCD) : ABCD :=
  let a := (A self * A other + B self * C other)%num in
  let b := (A self * B other + B self * D other)%num in
  let c := (C self * A other + D self * C other)%num in
  let d := (C self * B other + D self * D other)%num in
  let e := (A self * E other + B self * F other + E self)%num in
  let f := (C self * E other + D self * F other + F self)%num in
  ABCD_init a b c d
    (mkKwargs (Some (n1 other)) (Some (n2 self)) None None None
              (Some e) (Some f)).

(** The two right-hand sides computed in the [isinstance(other, Ray)]
    branch, before the copy is made. *)
Definition matmul_y (self : ABCD) (other : Ray K V) : V :=
  (coerce (A self) * y other + coerce (B self * n other) * u other
   + coerce (E self))%num.

Definition matmul_u (self : ABCD) (other : Ray K V) : result V :=
  pdiv (coerce (C self) * y other + coerce (D self * n other) * u other
        + coerce (F self))%num
       (coerce (n2 self)).

(** *** The store *)

Inductive obj : Type :=
| OABCD (x : ABCD)
| ORay (r : Ray K V).

Definition alloc (o : obj) (h : gmap loc obj) : loc * gmap loc obj :=
  let l := fresh (dom h) in (l, <[l:=o]> h).

(** Attribute assignments [ret.y = v], [ret.u = v], [ret.n = v]. *)
Definition set_y (v : V) (o : obj) : obj :=
  match o with
  | ORay r => ORay (mkRay (cls r) v (u r) (n r) (lam0 r))
  | other => other
  end.

Definition set_u (v : V) (o : obj) : obj :=
  match o with
  | ORay r => ORay (mkRay (cls r) (y r) v (n r) (lam0 r))
  | other => other
  end.

Definition set_n (v : K) (o : obj) : obj :=
  match o with
  | ORay r => ORay (mkRay (cls r) (y r) (u r) v (lam0 r))
  | other => other
  end.

(** [ABCD.__matmul__(self, other)] on the store: the result value and the
    store afterwards.  An [other] that is neither an [ABCD] nor a [Ray]
    falls through both branches and the method returns [None]. *)
Definition ABCD_matmul (self : loc) (other : pyval) (h : gmap loc obj)
    : result (pyval * gmap loc obj) :=
  match h !! self with
  | Some (OABCD x) =>
      match other with
      | VNone => Ok (VNone, h)
      | VObj lo =>
          match h !! lo with
          | Some (OABCD o) =>
              let (l, h') := alloc (OABCD (matmul_ABCD x o)) h in
              Ok (VObj l, h')
          | Some (ORay r) =>
              let y' := matmul_y x r in
              (let* u' := matmul_u x r in
               let (ret, h1) := alloc (ORay r) h in
               let h2 := alter (set_y y') ret h1 in
               let h3 := alter (set_u u') ret h2 in
               let h4 := alter (set_n (n2 x)) ret h3 in
               Ok (VObj ret, h4))%py
          | None => Raise AttributeError
          end
      end
  | _ => Raise AttributeError
  end.

(** [Ray.__imatmul__(self, other)]: [return other @ self]; the caller
    rebinds its name to the returned object. *)
Definition Ray_imatmul (self other : loc) (h : gmap loc obj)
    : result (pyval * gmap loc obj) :=
  ABCD_matmul other (VObj self) h.

(** [ABCD.__imatmul__(self, other)]: [return other @ self].  The
    expression is evaluated by the left operand's [__matmul__]; a [Ray]
    has none and [ABCD] has no [__rmatmul__], so a ray (or [None]) on the
    left is a [TypeError]. *)
Definition ABCD_imatmul (self : loc) (other : pyval) (h : gmap loc obj)
    : result (pyval * gmap loc obj) :=
  match other with
  | VObj lo =>
      match h !! lo with
      | Some (OABCD _) => ABCD_matmul lo (VObj self) h
      | Some (ORay _) => Raise TypeError
      | None => Raise AttributeError
      end
  | VNone => Raise TypeError
  end.

(** [ABCD.add_misalignments]: assigns [self.E], then [self.F]. *)
Definition add_misalignments (self : loc) (disp tilt length : K)
    (h : gmap loc obj) : result (pyval * gmap loc obj) :=
  match h !! self with
  | Some (OABCD x) =>
      let e := ((pone - A x) * disp + (length - n1 x * B x) * tilt)%num in
      let f := (- C x * disp + (n2 x - n1 x * D x) * tilt)%num in
      Ok (VNone,
          <[self := OABCD (mkABCD (A x) (B x) (C x) (D x) e f (n1 x) (n2 x))]> h)
  | _ => Raise AttributeError
  end.

(** *** Cardinal points *)

Definition F1 (self : ABCD) : result (xnum K) :=
  try_except_ZeroDivisionError
    (let* v := pdiv (n1 self * D self)%num (C self) in Ok (Finite v))%py
    NegInf.

Definition P1 (self : ABCD) : result (xnum K) :=
  try_except_ZeroDivisionError
    (let* v := pdiv (n1 self * (D self - pone))%num (C self) in
     Ok (Finite v))%py
    NegInf.

Definition N1 (self : ABCD) : result (xnum K) :=
  try_except_ZeroDivisionError
    (let* v := pdiv (D self * n1 self - n2 self)%num (C self) in
     Ok (Finite v))%py
    NegInf.

Definition f1 (self : ABCD) : result (xnum K) :=
  try_except_ZeroDivisionError
    (let* v := pdiv (- n1 self)%num (C self) in Ok (Finite v))%py
    PosInf.

Definition F2 (self : ABCD) : result (xnum K) :=
  try_except_ZeroDivisionError
    (let* v := pdiv (- n2 self * A self)%num (C self) in Ok (Finite v))%py
    PosInf.

Definition P2 (self : ABCD) : result (xnum K) :=
  try_except_ZeroDivisionError
    (let* v := pdiv (n2 self * (pone - A self))%num (C self) in
     Ok (Finite v))%py
    PosInf.

Definition N2 (self : ABCD) : result (xnum K) :=
  try_except_ZeroDivisionError
    (let* v := pdiv (n1 self - A self * n2 self)%num (C self) in
     Ok (Finite v))%py
    PosInf.

Definition f2 (self : ABCD) : result (xnum K) :=
  try_except_ZeroDivisionError
    (let* v := pdiv (- n2 self)%num (C self) in Ok (Finite v))%py
    PosInf.
(** *** Element constructors

      Each constructor computes its coefficients and hands them to
      [ABCD.__init__]; what is given here is the attribute record of the
      object so built, or the exception raised on the way. *)
Section Elements.
Context {trigK : PyTrig K}.

(** [super().__init__(A, B, C, D, n1, n2, **kwargs)]: [n1] and [n2]
    are passed by position, so a second value for either among the
    keywords is a [TypeError]. *)
Definition ABCD_init_n1_n2 (a b c d m1 m2 : K) (kw : kwargs)
    : result ABCD :=
  match kw_n1 kw, kw_n2 kw with
  | None, None =>
      Ok (ABCD_init a b c d
            (mkKwargs (Some m1) (Some m2) (kw_disp kw) (kw_tilt kw)
                      (kw_length kw) (kw_E kw) (kw_F kw)))
  | _, _ => Raise TypeError
  end.

(** [Transfer(t, n=1, **kwargs)] *)
Definition Transfer (t n : K) (kw : kwargs) : result ABCD :=
  (let* b := pdiv t n in
   Ok (ABCD_init pone b pzero pone kw))%py.

(** [ThinLens(f, **kwargs)] *)
Definition ThinLens (f : K) (kw : kwargs) : result ABCD :=
  (let* c := pdiv (- pone)%num f in
   Ok (ABCD_init pone pzero c pone kw))%py.

(** The coefficients [(denominator, A, D)] chosen by the
    [T_or_S.lower()] test of [Refraction.__init__]. *)
Definition Refraction_plane (T_or_S : string) (C1 C2 : K)
    : result (K * K * K) :=
  if String.eqb (str_lower T_or_S) "t" then
    (let denominator := (C1 * C2)%num in
     let* a := pdiv C2 C1 in
     let* d := pdiv C1 C2 in
     Ok (denominator, a, d))%py
  else if String.eqb (str_lower T_or_S) "s" then
    Ok (pone, pone, pone)
  else Raise (ValueError ("Unknown T_or_S: " ++ T_or_S)).

(** [Refraction(R, n1, n2, AOI=0, T_or_S="T", **kwargs)] *)
Definition Refraction (R m1 m2 AOI : K) (T_or_S : string) (kw : kwargs)
    : result ABCD :=
  (let* x := pdiv (m1 * math_sin AOI)%num m2 in
   let* AOE := math_asin x in
   let C1 := math_cos AOI in
   let C2 := math_cos AOE in
   let* p := Refraction_plane T_or_S C1 C2 in
   let denominator := fst (fst p) in
   let numerator := (m2 * C2 - m1 * C1)%num in
   let* dne := pdiv numerator denominator in
   let b := pzero in
   let* c := pdiv (- dne)%num R in
   ABCD_init_n1_n2 (snd (fst p)) b c (snd p) m1 m2 kw)%py.

(** [ThickLens(R1, R2, t, n_glass, n_ambient=1, **kwargs)] *)
Definition ThickLens (R1 R2 t n_glass n_ambient : K) (kw : kwargs)
    : result ABCD :=
  (let* r1 := Refraction R1 n_ambient n_glass pzero "T" no_kwargs in
   let* t' := Transfer t n_glass no_kwargs in
   let* r2 := Refraction R2 n_glass n_ambient pzero "T" no_kwargs in
   let net := matmul_ABCD (matmul_ABCD r2 t') r1 in
   ABCD_init_n1_n2 (A net) (B net) (C net) (D net) (n1 net) (n2 net) kw)%py.

Context {mathK : PyMath K} {ordK : PyOrd K}.

(** [Mirror(R, AOI=0, T_or_S="T", **kwargs)] *)
Definition Mirror (R AOI : K) (T_or_S : string) (kw : kwargs)
    : result ABCD :=
  (let* Re :=
     if String.eqb (str_lower T_or_S) "t" then Ok (R * math_cos AOI)%num
     else if String.eqb (str_lower T_or_S) "s" then pdiv R (math_cos AOI)
     else Raise (ValueError ("Unknown T_or_S: " ++ T_or_S)) in
   let* c := pdiv ptwo Re in
   Ok (ABCD_init pone pzero c pone kw))%py.

(** [Duct(t, n0, n2, **kwargs)].  A negative [n2 / n0] makes
    [(n2 / n0) ** 0.5] a complex number, which [math.cos] refuses with a
    [TypeError]. *)
Definition Duct (t n0 n2' : K) (kw : kwargs) : result ABCD :=
  (let* x := pdiv n2' n0 in
   if pltb x pzero then Raise TypeError
   else
     let g := pow_half x in
     let a := math_cos (g * t)%num in
     let* b := pdiv (math_sin (g * t)%num) (n0 * g)%num in
     let c := (- n0 * g * math_sin (g * t))%num in
     let d := math_cos (g * t)%num in
     Ok (ABCD_init a b c d kw))%py.

(** [Grating(R, m=-1, d=1e-6, λ0=532e-9, AOI=0, T_or_S="T", sign=1,
    **kwargs)] *)
Definition Grating (R m d l0 AOI : K) (T_or_S : string) (sign : K)
    (kw : kwargs) : result ABCD :=
  (let sign := if pgeb sign pzero then pone else (- pone)%num in
   let* x := pdiv (m * l0)%num d in
   let* AOE := math_asin (x + sign * math_sin AOI)%num in
   let C1 := math_cos AOI in
   let C2 := math_cos AOE in
   if String.eqb (str_lower T_or_S) "t" then
     (let* Rt := pdiv (ptwo * R * C1 * C2)%num (C1 + C2)%num in
      let* M := pdiv C2 C1 in
      let* c := pdiv ptwo Rt in
      let* d' := pdiv pone M in
      Ok (ABCD_init M pzero c d' kw))
   else if String.eqb (str_lower T_or_S) "s" then
     (let* Rs := pdiv (ptwo * R)%num (C1 + C2)%num in
      let* c := pdiv ptwo Rs in
      Ok (ABCD_init pone pzero c pone kw))
   else Raise (ValueError ("Unknown T_or_S: " ++ T_or_S)))%py.
End Elements.
End Surfaces.
Arguments ABCD K : clear implicits.
Arguments kwargs K : clear implicits.
Arguments obj K V : clear implicits.
End surfaces.


(** ** Exact real and complex numbers *)

Definition R_truediv (x y : R) : option R :=
  if Req_dec_T y 0%R then None else Some (x / y)%R.

Definition R_eqb (x y : R) : bool :=
  if Req_dec_T x y then true else false.

#[global] Instance R_num : PyNum R := {|
  pzero := 0%R;
  pone := 1%R;
  padd := Rplus;
  psub := Rminus;
  pmul := Rmult;
  pneg := Ropp;
  ptruediv := R_truediv;
  peqb := R_eqb
|}.

#[global] Instance R_math : PyMath R := {|
  math_pi := PI;
  pow_half := sqrt
|}.

(** [math.asin] raises [ValueError] outside [[-1, 1]]. *)
Definition math_domain_error : string := "math domain error".

Definition R_asin (x : R) : result R :=
  if Rle_dec (-1) x then
    if Rle_dec x 1 then Ok (asin x)
    else Raise (ValueError math_domain_error)
  else Raise (ValueError math_domain_error).

#[global] Instance R_trig : PyTrig R := {|
  math_sin := sin;
  math_cos := cos;
  math_asin := R_asin
|}.

#[global] Instance R_ord : PyOrd R := {|
  pgeb := fun x y => if Rle_dec y x then true else false;
  pltb := fun x y => if Rlt_dec x y then true else false
|}.

(** A complex number as its two parts, over any number type with exact
    arithmetic. *)
Record complex (K : Type) : Type := mkComplex { re : K; im : K }.
Arguments mkComplex {K} re im.
Arguments re {K} c.
Arguments im {K} c.

Section Complex.
Context {K : Type} {numK : PyNum K}.

Definition c_add (a b : complex K) : complex K :=
  mkComplex (re a + re b)%num (im a + im b)%num.

Definition c_sub (a b : complex K) : complex K :=
  mkComplex (re a - re b)%num (im a - im b)%num.

Definition c_mul (a b : complex K) : complex K :=
  mkComplex (re a * re b - im a * im b)%num (re a * im b + im a * re b)%num.

Definition c_neg (a : complex K) : complex K :=
  mkComplex (- re a)%num (- im a)%num.

Definition c_eqb (a b : complex K) : bool :=
  (re a == re b)%num && (im a == im b)%num.

(** Division raises exactly when the divisor is [0 + 0j]. *)
Definition c_truediv (a b : complex K) : option (complex K) :=
  let d := (re b * re b + im b * im b)%num in
  match ptruediv (re a * re b + im a * im b)%num d,
        ptruediv (im a * re b - re a * im b)%num d with
  | Some x, Some y => Some (mkComplex x y)
  | _, _ => None
  end.

#[global] Instance complex_num : PyNum (complex K) := {|
  pzero := mkComplex pzero pzero;
  pone := mkComplex pone pzero;
  padd := c_add;
  psub := c_sub;
  pmul := c_mul;
  pneg := c_neg;
  ptruediv := c_truediv;
  peqb := c_eqb
|}.

#[global] Instance complex_coerce : Coerce K (complex K) :=
  fun x => mkComplex x pzero.

#[global] Instance complex_parts : PyParts K (complex K) := {|
  real := re;
  imag := im
|}.

#[global] Instance complex_complex_of : PyComplexOf K (complex K) :=
  mkComplex.
End Complex.

(** *** binary64 complex numbers

    Python's [complex]: a pair of floats, with the arithmetic of CPython's
    complex type.  A real operand is first converted to [complex(x, 0.0)]
    ([Coerce]); the quotient scales by the larger part of the divisor. *)
Record pycomplex : Type := mkPyComplex { creal : float; cimag : float }.

Definition pc_add (a b : pycomplex) : pycomplex :=
  mkPyComplex (creal a + creal b)%float (cimag a + cimag b)%float.

Definition pc_sub (a b : pycomplex) : pycomplex :=
  mkPyComplex (creal a - creal b)%float (cimag a - cimag b)%float.

Definition pc_mul (a b : pycomplex) : pycomplex :=
  mkPyComplex (creal a * creal b - cimag a * cimag b)%float
              (creal a * cimag b + cimag a * creal b)%float.

Definition pc_neg (a : pycomplex) : pycomplex :=
  mkPyComplex (- creal a)%float (- cimag a)%float.

Definition pc_eqb (a b : pycomplex) : bool :=
  PrimFloat.eqb (creal a) (creal b) && PrimFloat.eqb (cimag a) (cimag b).

Definition float_abs (x : float) : float :=
  if PrimFloat.ltb x 0%float then (- x)%float else x.

Definition pc_truediv (a b : pycomplex) : option pycomplex :=
  let abs_breal := float_abs (creal b) in
  let abs_bimag := float_abs (cimag b) in
  if PrimFloat.leb abs_bimag abs_breal then
    if PrimFloat.eqb abs_breal 0%float then None
    else
      let ratio := (cimag b / creal b)%float in
      let denom := (creal b + cimag b * ratio)%float in
      Some (mkPyComplex ((creal a + cimag a * ratio) / denom)%float
                        ((cimag a - creal a * ratio) / denom)%float)
  else if PrimFloat.leb abs_breal abs_bimag then
    let ratio := (creal b / cimag b)%float in
    let denom := (creal b * ratio + cimag b)%float in
    Some (mkPyComplex ((creal a * ratio + cimag a) / denom)%float
                      ((cimag a * ratio - creal a) / denom)%float)
  else Some (mkPyComplex nan nan).

#[global] Instance pycomplex_num : PyNum pycomplex := {|
  pzero := mkPyComplex 0%float 0%float;
  pone := mkPyComplex 1%float 0%float;
  padd := pc_add;
  psub := pc_sub;
  pmul := pc_mul;
  pneg := pc_neg;
  ptruediv := pc_truediv;
  peqb := pc_eqb
|}.

#[global] Instance pycomplex_coerce : Coerce float pycomplex :=
  fun x => mkPyComplex x 0%float.

#[global] Instance pycomplex_parts : PyParts float pycomplex := {|
  real := creal;
  imag := cimag
|}.

#[global] Instance pycomplex_of : PyComplexOf float pycomplex := mkPyComplex.

(** Modelled from the spec: [equations.q_from_z_zR(z, zR, n)], which is not
    part of the sources at hand.  The spec gives the physical parameter as
    [q = n·qr = z + i·zR]; the solver returns the reduced [qr = q / n]. *)
Definition q_from_z_zR_spec {K V : Type} {numV : PyNum V} {cKV : Coerce K V}
    {ofKV : PyComplexOf K V} (z zR n : K) : result V :=
  pdiv (complex_of z zR) (coerce n).

(** ** Notions used in the statements *)

(** The six coefficients that [ABCD.__eq__] compares. *)
Definition coefficients {K : Type} (X : surfaces.ABCD K)
    : K * K * K * K * K * K :=
  (surfaces.A X, surfaces.B X, surfaces.C X, surfaces.D X,
   surfaces.E X, surfaces.F X).

(** The identity operator [(A=1, B=0, C=0, D=1, E=0, F=0)] between media
    of any indices. *)
Definition identity_op {K : Type} {numK : PyNum K} (m1 m2 : K)
    : surfaces.ABCD K :=
  surfaces.mkABCD pone pzero pzero pone pzero pzero m1 m2.

(** The determinant [A*D - B*C] of the ray matrix. *)
Definition det {K : Type} {numK : PyNum K} (X : surfaces.ABCD K) : K :=
  (surfaces.A X * surfaces.D X - surfaces.B X * surfaces.C X)%num.

(** Every attribute of an operator: the six coefficients and the two
    indices. *)
Definition attributes {K : Type} (X : surfaces.ABCD K)
    : K * K * K * K * K * K * K * K :=
  (coefficients X, surfaces.n1 X, surfaces.n2 X).

(** The cardinal points, each with the numerator of its defining ratio
    [numerator / C]. *)
Definition cardinal_points {K : Type} {numK : PyNum K}
    : list ((surfaces.ABCD K -> result (xnum K)) * (surfaces.ABCD K -> K)) :=
  [ (surfaces.F1, fun X => (surfaces.n1 X * surfaces.D X)%num);
    (surfaces.P1, fun X => (surfaces.n1 X * (surfaces.D X - pone))%num);
    (surfaces.N1, fun X => (surfaces.D X * surfaces.n1 X - surfaces.n2 X)%num);
    (surfaces.f1, fun X => (- surfaces.n1 X)%num);
    (surfaces.F2, fun X => (- surfaces.n2 X * surfaces.A X)%num);
    (surfaces.P2, fun X => (surfaces.n2 X * (pone - surfaces.A X))%num);
    (surfaces.N2, fun X => (surfaces.n1 X - surfaces.A X * surfaces.n2 X)%num);
    (surfaces.f2, fun X => (- surfaces.n2 X)%num) ].

(** The infinity of a given sign. *)
Definition signed_inf {K : Type} (s : comparison) : option (xnum K) :=
  match s with
  | Gt => Some PosInf
  | Lt => Some NegInf
  | Eq => None
  end.

(** [s] is the sign that [num / c] takes for every [c] on one side of 0
    ([side = Lt]: from below, [side = Gt]: from above), hence the sign of
    the ratio in the limit [c -> 0] from that side. *)
Definition limiting_sign (side : comparison) (num : Qc) (s : comparison)
    : Prop :=
  forall c : Qc, (c ?= 0)%Qc = side -> (num / c ?= 0)%Qc = s.

(** The policy "at [C = 0] every cardinal point is the infinity whose sign
    is the limiting sign of its defining ratio", for a given side of
    approach. *)
Definition limiting_sign_policy (side : comparison) : Prop :=
  forall X : surfaces.ABCD Qc,
    surfaces.C X = 0%Qc ->
    Forall (fun pn : (surfaces.ABCD Qc -> result (xnum Qc))
                     * (surfaces.ABCD Qc -> Qc) =>
              exists s v, limiting_sign side (pn.2 X) s
                          /\ signed_inf s = Some v
                          /\ pn.1 X = Ok v)
           cardinal_points.

(** An afocal one-to-one inverting relay in air: [ABCD(A=-1, B=0, C=0,
    D=-1)]. *)
Definition inverting_relay : surfaces.ABCD Qc :=
  surfaces.ABCD_init (-1)%Qc 0%Qc 0%Qc (-1)%Qc surfaces.no_kwargs.

(** *** The constructor's decision table, in the spec's words

    The recognised configurations in the documented precedence order
    [q > (R,w) > (z,zR) > (R,z) > (R,zR) > (w,z) > (w,zR)]; a
    configuration is supplied when each of its arguments is present, that
    is, is not [None]. *)

Inductive config : Type :=
| Cfg_q | Cfg_R_w | Cfg_z_zR | Cfg_R_z | Cfg_R_zR | Cfg_w_z | Cfg_w_zR.

Definition precedence : list config :=
  [Cfg_q; Cfg_R_w; Cfg_z_zR; Cfg_R_z; Cfg_R_zR; Cfg_w_z; Cfg_w_zR].

Section BeamTable.
Context {K V : Type} {numK : PyNum K} {numV : PyNum V} {cKV : Coerce K V}.
Variable equations : sources.solvers K V.

Definition present {T : Type} (o : option T) : bool :=
  match o with
  | Some _ => true
  | None => false
  end.

Definition supplied (a : sources.gb_args K V) (c : config) : bool :=
  match c with
  | Cfg_q => present (sources.arg_q a)
  | Cfg_R_w => present (sources.arg_R a) && present (sources.arg_w a)
  | Cfg_z_zR => present (sources.arg_z a) && present (sources.arg_zR a)
  | Cfg_R_z => present (sources.arg_R a) && present (sources.arg_z a)
  | Cfg_R_zR => present (sources.arg_R a) && present (sources.arg_zR a)
  | Cfg_w_z => present (sources.arg_w a) && present (sources.arg_z a)
  | Cfg_w_zR => present (sources.arg_w a) && present (sources.arg_zR a)
  end.

(** The configuration that wins: the first supplied one. *)
Definition selected (a : sources.gb_args K V) : option config :=
  List.find (supplied a) precedence.

(** The arguments with [R == 0] replaced by [math.inf]. *)
Definition normalise_R (a : sources.gb_args K V) : sources.gb_args K V :=
  sources.mkGbArgs (sources.arg_lam0 a) (sources.arg_n a) (sources.arg_sign a)
    (sources.arg_q a)
    (if sources.optx_is_zero (sources.arg_R a) then Some PosInf
     else sources.arg_R a)
    (sources.arg_w a) (sources.arg_z a) (sources.arg_zR a).

(** The arguments with another value for [R]. *)
Definition with_R (a : sources.gb_args K V) (R : option (xnum K))
    : sources.gb_args K V :=
  sources.mkGbArgs (sources.arg_lam0 a) (sources.arg_n a) (sources.arg_sign a)
    (sources.arg_q a) R (sources.arg_w a) (sources.arg_z a) (sources.arg_zR a).

(** The solver that belongs to a configuration, run on its arguments. *)
Definition solve (a : sources.gb_args K V) (c : config) : result V :=
  let l0 := sources.arg_lam0 a in
  let n := sources.arg_n a in
  let sign := sources.arg_sign a in
  match c, sources.arg_q a, sources.arg_R a, sources.arg_w a,
        sources.arg_z a, sources.arg_zR a with
  | Cfg_q, Some q, _, _, _, _ => pdiv q (coerce n)
  | Cfg_R_w, _, Some R, Some w, _, _ =>
      sources.q_from_R_w equations R w l0 n
  | Cfg_z_zR, _, _, _, Some z, Some zR =>
      sources.q_from_z_zR equations z zR n
  | Cfg_R_z, _, Some R, _, Some z, _ => sources.q_from_R_z equations R z n
  | Cfg_R_zR, _, Some R, _, _, Some zR =>
      sources.q_from_R_zR equations R zR n sign
  | Cfg_w_z, _, _, Some w, Some z, _ =>
      sources.q_from_w_z equations w z l0 n sign
  | Cfg_w_zR, _, _, Some w, _, Some zR =>
      sources.q_from_w_zR equations w zR l0 n sign
  | _, _, _, _, _, _ => Raise TypeError
  end.

(** The beam built from a reduced parameter, as the last line of the
    constructor does. *)
Definition beam_of_qr (a : sources.gb_args K V) (qr : V)
    : result (sources.Ray K V) :=
  (let* u0 := pdiv pone (coerce (sources.arg_n a) * qr)%num in
   Ok (sources.mkRay ClsGaussianBeam pone u0 (sources.arg_n a)
                     (sources.arg_lam0 a)))%py.

(** The constructor as the decision table describes it. *)
Definition GaussianBeam_table (a : sources.gb_args K V)
    : result (sources.Ray K V) :=
  if sources.opt_is_zero (sources.arg_w a)
     || sources.opt_is_zero (sources.arg_zR a)
  then Raise (ValueError sources.invalid_w_zR)
  else
    match selected (normalise_R a) with
    | Some c => (let* qr := solve (normalise_R a) c in beam_of_qr a qr)%py
    | None => Raise (ValueError sources.no_valid_configuration)
    end.
End BeamTable.

(** ** Concrete inputs *)

Set Warnings "-inexact-float".

(** [ABCD(A=a)]: every other argument at its default. *)
Definition ABCD_A (a : float) : surfaces.ABCD float :=
  surfaces.ABCD_init a 0%float 0%float 1%float surfaces.no_kwargs.

(** [ABCD(1, 0.5, -2, 1, n1=1, n2=1.5, E=0.25, F=0.125)] *)
Definition op_example : surfaces.ABCD float :=
  surfaces.ABCD_init 1%float 0.5%float (-2)%float 1%float
    (surfaces.mkKwargs (Some 1%float) (Some 1.5%float) None None None
       (Some 0.25%float) (Some 0.125%float)).

(** [Ray(0.5, 0.25, 1.25)], in a medium other than the operator's [n1]. *)
Definition ray_example : sources.Ray float float :=
  sources.Ray_init 0.5%float 0.25%float 1.25%float 532e-9%float.

(** A store holding the operator at 1 and the ray at 2. *)
Definition store_example : gmap loc (surfaces.obj float float) :=
  <[2%positive := surfaces.ORay ray_example]>
    (<[1%positive := surfaces.OABCD op_example]> ∅).

(** Operators with small rational coefficients. *)
Definition opq (a b c d e f : Z) : surfaces.ABCD Qc :=
  surfaces.mkABCD (Q2Qc (inject_Z a)) (Q2Qc (inject_Z b)) (Q2Qc (inject_Z c))
    (Q2Qc (inject_Z d)) (Q2Qc (inject_Z e)) (Q2Qc (inject_Z f)) 1%Qc 1%Qc.

(** An afocal operator on binary64: [ABCD(2, 0.5, 0, 0.5)]. *)
Definition afocal_example : surfaces.ABCD float :=
  surfaces.ABCD_init 2%float 0.5%float 0%float 0.5%float surfaces.no_kwargs.

(** *** Finite binary64 values

    A float read through its IEEE 754 specification is finite when it is a
    zero or a finite number, as [math.isfinite] says. *)
Definition sf_finite (x : spec_float) : bool :=
  match x with
  | S754_zero _ | S754_finite _ _ _ => true
  | _ => false
  end.

Definition float_is_finite (x : float) : bool := sf_finite (Prim2SF x).

(** The six coefficients of an operator are finite floats. *)
Definition finite_coefficients (X : surfaces.ABCD float) : bool :=
  float_is_finite (surfaces.A X) && float_is_finite (surfaces.B X)
  && float_is_finite (surfaces.C X) && float_is_finite (surfaces.D X)
  && float_is_finite (surfaces.E X) && float_is_finite (surfaces.F X).

(** [r] is the float [x] up to the sign of a zero: what [r == x] needs
    when [x] is finite. *)
Definition sf_keeps (x r : spec_float) : Prop :=
  match x with
  | S754_finite _ _ _ => r = x
  | S754_zero _ => exists s, r = S754_zero s
  | _ => False
  end.

Definition float_keeps (x r : float) : Prop :=
  sf_keeps (Prim2SF x) (Prim2SF r).

Definition float_zero (z : float) : Prop :=
  exists s, Prim2SF z = S754_zero s.

(** The float 1.0: mantissa [2^52], exponent [-52]. *)
Definition sf_one : spec_float :=
  S754_finite false 4503599627370496 (-52).

(** [ABCD(A=math.inf, E=0, F=0)] *)
Definition ABCD_A_inf : surfaces.ABCD float :=
  surfaces.ABCD_init infinity 0%float 0%float 1%float
    (surfaces.mkKwargs None None None None None (Some 0%float)
       (Some 0%float)).

(** *** [math.pi] and [x ** 0.5] on binary64

    [math.pi] is the float nearest to pi.  [x ** 0.5] is the C library's
    [pow]; all that is used of it is [sqrt_or_neighbour]: its result is
    the correctly rounded square root or one of the two floats next to
    it. *)
Definition float_math (pw : float -> float) : PyMath float := {|
  math_pi := 3.141592653589793%float;
  pow_half := pw
|}.

Definition sqrt_or_neighbour (pw : float -> float) : Prop :=
  forall x : float,
    pw x = PrimFloat.sqrt x
    \/ pw x = next_up (PrimFloat.sqrt x)
    \/ pw x = next_down (PrimFloat.sqrt x).

(** [GaussianBeam(R=.., w=.., z=.., zR=..)] with the default wavelength,
    index and sign, on exact rationals. *)
Definition beam_args (R : option (xnum Qc)) (w z zR : option Qc)
    : sources.gb_args Qc (complex Qc) :=
  sources.mkGbArgs (Q2Qc (532 # 1000000000)) 1%Qc 1%Qc None R w z zR.

Definition beam_R1_z0_zR1 : sources.gb_args Qc (complex Qc) :=
  beam_args (Some (Finite 1%Qc)) None (Some 0%Qc) (Some 1%Qc).

Definition beam_R0_w1 : sources.gb_args Qc (complex Qc) :=
  beam_args (Some (Finite 0%Qc)) (Some 1%Qc) None None.

(** [actual == pytest.approx(expected)] of the test suite, with the
    default tolerances: relative [1e-6], absolute [1e-12]. *)
Definition pytest_approx (actual expected : float) : bool :=
  let tolerance :=
    let rel := (1e-6 * PrimFloat.abs expected)%float in
    if PrimFloat.ltb rel 1e-12%float then 1e-12%float else rel in
  PrimFloat.leb (PrimFloat.abs (actual - expected)%float) tolerance.

(** The program of the free-space property, run from the empty store:
    [gb1 = GaussianBeam(λ0=l0, z=z, zR=zR)], [fs = Transfer(L)],
    [gb2 = fs @ gb1]; its result is the two beams [(gb1, gb2)]. *)
Definition free_space_program {K V : Type} {numK : PyNum K} {numV : PyNum V}
    {cKV : Coerce K V} (equations : sources.solvers K V) (l0 z zR L : K)
    : result (sources.Ray K V * sources.Ray K V) :=
  (let* gb1 := sources.GaussianBeam_init equations
                 (sources.mkGbArgs l0 pone pone None None None
                                   (Some z) (Some zR)) in
   let* fs := surfaces.Transfer L pone surfaces.no_kwargs in
   let (lr, h1) := surfaces.alloc (surfaces.ORay gb1) ∅ in
   let (lx, h2) := surfaces.alloc (surfaces.OABCD fs) h1 in
   let* vh := surfaces.ABCD_matmul lx (VObj lr) h2 in
   match vh.1 with
   | VObj l =>
       match vh.2 !! l with
       | Some (surfaces.ORay gb2) => Ok (gb1, gb2)
       | _ => Raise AttributeError
       end
   | VNone => Raise AttributeError
   end)%py.

(** Stand-ins for [math.sin], [math.cos] and [math.asin] that agree with
    them at 0, the only argument they receive at normal incidence. *)
Definition trig_at_zero : PyTrig float := {|
  math_sin := fun x => x;
  math_cos := fun _ => 1%float;
  math_asin := fun x => Ok x
|}.

(** A store holding two operators, at 1 and 3, and a ray at 2. *)
Definition store_two_operators : gmap loc (surfaces.obj float float) :=
  <[3%positive := surfaces.OABCD afocal_example]> store_example.

(** A ray on exact rationals: [Ray(1, 2, 3)]. *)
Definition ray_Qc : sources.Ray Qc Qc :=
  sources.Ray_init (Q2Qc (inject_Z 1)) (Q2Qc (inject_Z 2))
    (Q2Qc (inject_Z 3)) (Q2Qc (532 # 1000000000)).

(** Operators and beams over exact reals: a lens of power 2 between air
    and a medium of index 3/2, and beams with [q = 1 + i], [q = i] and
    [u = 0]. *)
Definition lens_R : surfaces.ABCD R :=
  surfaces.mkABCD 1%R 0%R (-2)%R 1%R 0%R 0%R 1%R (3 / 2)%R.

Definition beam_R (u0 : complex R) : sources.Ray R (complex R) :=
  sources.mkRay ClsGaussianBeam (mkComplex 1%R 0%R) u0 1%R 532e-9%R.

Definition beam_1_plus_i : sources.Ray R (complex R) :=
  beam_R (mkComplex (1 / 2)%R (- (1 / 2))%R).

Definition beam_at_waist : sources.Ray R (complex R) :=
  beam_R (mkComplex 0%R (-1)%R).

Definition beam_u_zero : sources.Ray R (complex R) :=
  beam_R (mkComplex 0%R 0%R).

(** * Properties *)

Import sources surfaces.

(** ** Applying an operator to a ray *)

Section Apply.
Context {K V : Type} {numK : PyNum K} {numV : PyNum V} {cKV : Coerce K V}.
Implicit Types (h : gmap loc (obj K V)) (X : ABCD K) (r : Ray K V).

Lemma fresh_insert_ne h (o : obj K V) :
  fresh (dom (<[fresh (dom h) := o]> h)) <> fresh (dom h).
Proof.
  intros Heq. pose proof (is_fresh (dom (<[fresh (dom h) := o]> h))) as Hf.
  rewrite Heq in Hf. apply Hf. rewrite dom_insert.
  apply elem_of_union_l, elem_of_singleton. reflexivity.
Qed.

(** The store after [X @ r] where the division by [n2] is defined: one new
    location, holding the transformed copy. *)
Lemma ABCD_matmul_ray_store h lx lr X r u' :
  h !! lx = Some (OABCD X) ->
  h !! lr = Some (ORay r) ->
  matmul_u X r = Ok u' ->
  ABCD_matmul lx (VObj lr) h =
    Ok (VObj (fresh (dom h)),
        <[fresh (dom h) :=
            ORay (mkRay (cls r) (matmul_y X r) u' (n2 X) (lam0 r))]> h).
Proof.
  intros Hx Hr Hu. unfold ABCD_matmul. rewrite Hx, Hr, Hu. simpl.
  rewrite !alter_insert_eq. reflexivity.
Qed.

(** C1: applying an operator [X] to a Ray or GaussianBeam [r] returns a new
    object of the same kind with [y' = A*y + B*n*u + E],
    [u' = (C*y + D*n*u + F) / n2], [n = n2] and the wavelength of [r];
    the index used is the one stored in [r], whatever [n1] of [X] is. *)
Theorem C1_apply_to_ray h lx lr X r u' :
  h !! lx = Some (OABCD X) ->
  h !! lr = Some (ORay r) ->
  ptruediv (coerce (C X) * y r + coerce (D X * n r) * u r + coerce (F X))%num
           (coerce (n2 X)) = Some u' ->
  exists l h',
    ABCD_matmul lx (VObj lr) h = Ok (VObj l, h') /\
    h !! l = None /\
    h' !! l = Some (ORay
      (mkRay (cls r)
             (coerce (A X) * y r + coerce (B X * n r) * u r + coerce (E X))%num
             u' (n2 X) (lam0 r))).
Proof.
  intros Hx Hr Hdiv.
  assert (Hu : matmul_u X r = Ok u') by (unfold matmul_u, pdiv; rewrite Hdiv; done).
  eexists _, _. split; [apply (ABCD_matmul_ray_store _ _ _ _ _ _ Hx Hr Hu)|].
  split.
  - apply not_elem_of_dom, is_fresh.
  - rewrite lookup_insert_eq. reflexivity.
Qed.

(** C7: the plain application [X @ r] leaves the attributes stored in [r]
    as they were: after the call the location of [r] holds the same
    [y], [u], [n] and wavelength, whether the call returns or raises. *)
Theorem C7_apply_leaves_ray h lx lr X r :
  h !! lx = Some (OABCD X) ->
  h !! lr = Some (ORay r) ->
  (exists l h', ABCD_matmul lx (VObj lr) h = Ok (VObj l, h')
                /\ l <> lr /\ h' !! lr = Some (ORay r))
  \/ ABCD_matmul lx (VObj lr) h = Raise ZeroDivisionError.
Proof.
  intros Hx Hr.
  destruct (matmul_u X r) as [u'|e] eqn:Hu.
  - left. eexists _, _. split; [apply (ABCD_matmul_ray_store _ _ _ _ _ _ Hx Hr Hu)|].
    assert (Hne : fresh (dom h) <> lr).
    { intros Heq. pose proof (is_fresh (dom h)) as Hf.
      apply not_elem_of_dom in Hf. rewrite Heq in Hf. congruence. }
    split; [exact Hne|]. rewrite lookup_insert_ne by exact Hne. exact Hr.
  - right. unfold ABCD_matmul. rewrite Hx, Hr, Hu. simpl.
    unfold matmul_u, pdiv in Hu. destruct ptruediv; congruence.
Qed.
End Apply.

(** ** Composing operators *)

Section Compose.
Context {K V : Type} {numK : PyNum K} {numV : PyNum V} {cKV : Coerce K V}.
Implicit Types (h : gmap loc (obj K V)) (X Y Z : ABCD K).

Lemma matmul_ABCD_attrs X Y :
  matmul_ABCD X Y =
    mkABCD (A X * A Y + B X * C Y)%num (A X * B Y + B X * D Y)%num
           (C X * A Y + D X * C Y)%num (C X * B Y + D X * D Y)%num
           (A X * E Y + B X * F Y + E X)%num
           (C X * E Y + D X * F Y + F X)%num
           (n1 Y) (n2 X).
Proof. reflexivity. Qed.

(** C2: [X @ Y] returns a new operator holding the matrix product, the
    affine part of the augmented product, [n1] of the right operand and
    [n2] of the left one; both operands are as before. *)
Theorem C2_compose h lx ly X Y :
  h !! lx = Some (OABCD X) ->
  h !! ly = Some (OABCD Y) ->
  exists l h',
    ABCD_matmul lx (VObj ly) h = Ok (VObj l, h') /\
    h !! l = None /\
    h' !! l = Some (OABCD
      (mkABCD (A X * A Y + B X * C Y)%num (A X * B Y + B X * D Y)%num
              (C X * A Y + D X * C Y)%num (C X * B Y + D X * D Y)%num
              (A X * E Y + B X * F Y + E X)%num
              (C X * E Y + D X * F Y + F X)%num
              (n1 Y) (n2 X))) /\
    h' !! lx = Some (OABCD X) /\
    h' !! ly = Some (OABCD Y).
Proof.
  intros Hx Hy.
  assert (Hf : h !! fresh (dom h) = None) by apply not_elem_of_dom, is_fresh.
  exists (fresh (dom h)), (<[fresh (dom h) := OABCD (matmul_ABCD X Y)]> h).
  split; [|split; [exact Hf|split; [|split]]].
  - unfold ABCD_matmul. rewrite Hx, Hy. reflexivity.
  - rewrite lookup_insert_eq, matmul_ABCD_attrs. reflexivity.
  - rewrite lookup_insert_ne by congruence. exact Hx.
  - rewrite lookup_insert_ne by congruence. exact Hy.
Qed.
End Compose.

(** *** Associativity and identity, for exact coefficient arithmetic *)

Section ComposeExact.
Context {K : Type} {numK : PyNum K}.
Hypothesis K_ring : ring_theory pzero pone padd pmul psub pneg (@eq K).
Add Ring K_ring_inst : K_ring.
Implicit Types X Y Z : ABCD K.

Lemma ABCD_default_identity : ABCD_default = identity_op pone pone.
Proof.
  unfold ABCD_default, ABCD_init, identity_op; simpl. f_equal; ring.
Qed.

(** In exact arithmetic composition is associative on the six
    coefficients and the identity operator is neutral on either side. *)
Lemma assoc_identity_exact X Y Z m1 m2 :
  coefficients (matmul_ABCD (matmul_ABCD X Y) Z)
    = coefficients (matmul_ABCD X (matmul_ABCD Y Z))
  /\ coefficients (matmul_ABCD (identity_op m1 m2) X) = coefficients X
  /\ coefficients (matmul_ABCD X (identity_op m1 m2)) = coefficients X.
Proof.
  unfold coefficients. rewrite !matmul_ABCD_attrs. simpl.
  repeat split; repeat apply (f_equal2 pair); ring.
Qed.
End ComposeExact.

(** *** The identity operator on binary64

    On finite floats [1 * x] is [x], [0 * y] is a zero and adding a zero
    changes at most the sign of a zero, so [1*x + 0*y (+ 0) == x]. *)

Section Binary64Identity.
Local Open Scope Z_scope.

Lemma Prim2SF_one : Prim2SF 1%float = sf_one.
Proof. reflexivity. Qed.

Lemma Prim2SF_zero : Prim2SF 0%float = S754_zero false.
Proof. reflexivity. Qed.

Lemma digits2_iter (n m : positive) :
  Zpos (digits2_pos (Pos.iter xO m n)) = Zpos (digits2_pos m) + Zpos n.
Proof.
  induction n as [|n IH] using Pos.peano_ind.
  - change (Pos.iter xO m 1) with (xO m). cbn [digits2_pos].
    rewrite Pos2Z.inj_succ. lia.
  - rewrite Pos.iter_succ. cbn [digits2_pos].
    rewrite !Pos2Z.inj_succ, IH. lia.
Qed.

Lemma digits2_shift (m : positive) :
  Zpos (digits2_pos (Pos.mul 4503599627370496 m))
  = Zpos (digits2_pos m) + 52.
Proof. exact (digits2_iter 52 m). Qed.

Lemma shr_shift (m : positive) :
  SpecFloat.iter_pos shr_1 52
    (shr_record_of_loc (Zpos (Pos.mul 4503599627370496 m)) loc_Exact)
  = Build_shr_record (Zpos m) false false.
Proof. reflexivity. Qed.

(** Rounding the product of the mantissa [2^52] of 1.0 with the mantissa
    of a float in canonical form gives that float back. *)
Lemma round_exact (s : bool) (m : positive) (e : Z) :
  SpecFloat.bounded prec emax m e = true ->
  binary_round_aux prec emax s (Zpos (Pos.mul 4503599627370496 m))
    (-52 + e) loc_Exact
  = S754_finite s m e.
Proof.
  unfold SpecFloat.bounded, canonical_mantissa.
  rewrite andb_true_iff, Z.eqb_eq.
  intros [Hc He].
  unfold binary_round_aux, shr_fexp.
  unfold Zdigits2 at 1. rewrite digits2_shift.
  replace (Z.pos (digits2_pos m) + 52 + (-52 + e))
    with (Z.pos (digits2_pos m) + e) by lia.
  rewrite Hc. replace (e - (-52 + e)) with 52 by lia.
  unfold shr at 1. rewrite !shr_shift.
  cbn [shr_m loc_of_shr_record round_nearest_even].
  replace (-52 + e + 52) with e by lia.
  unfold Zdigits2. rewrite Hc, Z.sub_diag. cbn [shr shr_record_of_loc shr_m].
  rewrite He. reflexivity.
Qed.

Lemma SFmul_one_l (x : spec_float) :
  SpecFloat.valid_binary prec emax x = true -> sf_finite x = true ->
  sf_keeps x (SF64mul sf_one x).
Proof.
  destruct x as [s| | |s m e]; try discriminate; intros Hv _.
  - simpl. eauto.
  - simpl in Hv. unfold sf_keeps, SF64mul, SFmul, sf_one.
    rewrite round_exact by exact Hv. destruct s; reflexivity.
Qed.

Lemma SFmul_one_r (x : spec_float) :
  SpecFloat.valid_binary prec emax x = true -> sf_finite x = true ->
  sf_keeps x (SF64mul x sf_one).
Proof.
  destruct x as [s| | |s m e]; try discriminate; intros Hv _.
  - simpl. eauto.
  - simpl in Hv. unfold sf_keeps, SF64mul, SFmul, sf_one.
    rewrite Pos.mul_comm, Z.add_comm, round_exact by exact Hv.
    destruct s; reflexivity.
Qed.

Lemma SFmul_zero_l (s0 : bool) (y : spec_float) :
  sf_finite y = true -> exists s, SF64mul (S754_zero s0) y = S754_zero s.
Proof. destruct y; try discriminate; intros _; simpl; eauto. Qed.

Lemma SFmul_zero_r (s0 : bool) (y : spec_float) :
  sf_finite y = true -> exists s, SF64mul y (S754_zero s0) = S754_zero s.
Proof. destruct y; try discriminate; intros _; simpl; eauto. Qed.

Lemma SFadd_zero_r (x r : spec_float) (s : bool) :
  sf_keeps x r -> sf_keeps x (SF64add r (S754_zero s)).
Proof.
  destruct x as [sx| | |sx m e]; simpl; try tauto.
  - intros [s' ->]. destruct s', s; simpl; eauto.
  - intros ->. reflexivity.
Qed.

Lemma SFadd_zero_l (x r : spec_float) (s : bool) :
  sf_keeps x r -> sf_keeps x (SF64add (S754_zero s) r).
Proof.
  destruct x as [sx| | |sx m e]; simpl; try tauto.
  - intros [s' ->]. destruct s', s; simpl; eauto.
  - intros ->. reflexivity.
Qed.

Lemma SFeqb_keeps (x r : spec_float) : sf_keeps x r -> SFeqb r x = true.
Proof.
  destruct x as [sx| | |sx m e]; simpl; try tauto.
  - intros [s' ->]. reflexivity.
  - intros ->. unfold SFeqb, SFcompare.
    rewrite Z.compare_refl, Pos.compare_cont_refl. destruct sx; reflexivity.
Qed.

Lemma keeps_mul_one_l x :
  float_is_finite x = true -> float_keeps x (1 * x)%float.
Proof.
  intros Hx. unfold float_keeps. rewrite mul_spec, Prim2SF_one.
  apply SFmul_one_l; [apply Prim2SF_valid|exact Hx].
Qed.

Lemma keeps_mul_one_r x :
  float_is_finite x = true -> float_keeps x (x * 1)%float.
Proof.
  intros Hx. unfold float_keeps. rewrite mul_spec, Prim2SF_one.
  apply SFmul_one_r; [apply Prim2SF_valid|exact Hx].
Qed.

Lemma zero_mul_l y : float_is_finite y = true -> float_zero (0 * y)%float.
Proof.
  intros Hy. unfold float_zero. rewrite mul_spec, Prim2SF_zero.
  apply SFmul_zero_l, Hy.
Qed.

Lemma zero_mul_r y : float_is_finite y = true -> float_zero (y * 0)%float.
Proof.
  intros Hy. unfold float_zero. rewrite mul_spec, Prim2SF_zero.
  apply SFmul_zero_r, Hy.
Qed.

Lemma zero_zero : float_zero 0%float.
Proof. exists false. reflexivity. Qed.

Lemma zero_add z1 z2 :
  float_zero z1 -> float_zero z2 -> float_zero (z1 + z2)%float.
Proof.
  intros [s1 H1] [s2 H2]. unfold float_zero. rewrite add_spec, H1, H2.
  destruct s1, s2; simpl; eauto.
Qed.

Lemma keeps_add_zero_r x r z :
  float_keeps x r -> float_zero z -> float_keeps x (r + z)%float.
Proof.
  intros Hk [s Hz]. unfold float_keeps. rewrite add_spec, Hz.
  apply SFadd_zero_r, Hk.
Qed.

Lemma keeps_add_zero_l x r z :
  float_keeps x r -> float_zero z -> float_keeps x (z + r)%float.
Proof.
  intros Hk [s Hz]. unfold float_keeps. rewrite add_spec, Hz.
  apply SFadd_zero_l, Hk.
Qed.

Lemma keeps_self x : float_is_finite x = true -> float_keeps x x.
Proof.
  unfold float_is_finite, float_keeps.
  destruct (Prim2SF x); try discriminate; simpl; eauto.
Qed.

Lemma keeps_eqb x r : float_keeps x r -> PrimFloat.eqb r x = true.
Proof.
  intros Hk. rewrite FloatAxioms.eqb_spec. apply SFeqb_keeps, Hk.
Qed.

(** On binary64, composing an operator with finite coefficients with the
    identity operator, on either side, gives an operator that [==] finds
    equal to it. *)
Lemma identity_binary64_finite (X : ABCD float) (m1 m2 : float) :
  finite_coefficients X = true ->
  ABCD_eq (matmul_ABCD (identity_op m1 m2) X) X = true
  /\ ABCD_eq (matmul_ABCD X (identity_op m1 m2)) X = true.
Proof.
  unfold finite_coefficients. rewrite !andb_true_iff.
  intros [[[[[HA HB] HC] HD] HE] HF].
  unfold ABCD_eq. rewrite !matmul_ABCD_attrs. unfold identity_op.
  cbn [A B C D E F].
  change (@pone float float_num) with 1%float.
  change (@pzero float float_num) with 0%float.
  change (@padd float float_num) with PrimFloat.add.
  change (@pmul float float_num) with PrimFloat.mul.
  change (@peqb float float_num) with PrimFloat.eqb.
  split; rewrite !andb_true_iff; repeat split; apply keeps_eqb;
    auto 6 using keeps_add_zero_r, keeps_add_zero_l, keeps_mul_one_l,
      keeps_mul_one_r, zero_mul_l, zero_mul_r, zero_zero, zero_add,
      keeps_self.
Qed.
End Binary64Identity.


(** *** What fails on binary64 *)


Example assoc_binary64_values :
  A (matmul_ABCD (matmul_ABCD (ABCD_A 0.1) (ABCD_A 0.2)) (ABCD_A 0.3))
    = 0.006000000000000001%float
  /\ A (matmul_ABCD (ABCD_A 0.1) (matmul_ABCD (ABCD_A 0.2) (ABCD_A 0.3)))
    = 0.006%float.
Proof. split; vm_compute; reflexivity. Qed.

(** ** Cardinal points of an afocal operator *)

Section Cardinal.
Context {K : Type} {numK : PyNum K}.
Implicit Types X : ABCD K.

Lemma try_div_None (num c : K) (handler : xnum K) :
  ptruediv num c = None ->
  try_except_ZeroDivisionError
    (let* v := pdiv num c in Ok (Finite v))%py handler = Ok handler.
Proof. intros Hc. unfold pdiv. rewrite Hc. reflexivity. Qed.

Lemma try_div_Ok (num c : K) (handler : xnum K) :
  exists v, try_except_ZeroDivisionError
    (let* v := pdiv num c in Ok (Finite v))%py handler = Ok v.
Proof. unfold pdiv. destruct (ptruediv num c); simpl; eauto. Qed.

(** C4 (as amended): no cardinal-point property raises, and when division
    by [C] raises [ZeroDivisionError], as it does for [C = 0], [F1], [P1]
    and [N1] are minus infinity and [f1], [F2], [P2], [N2] and [f2] are
    plus infinity, whatever [A], [D], [n1] and [n2] are. *)
Theorem C4_afocal_fixed_infinities X :
  (forall num : K, ptruediv num (C X) = None) ->
  (F1 X = Ok NegInf /\ P1 X = Ok NegInf /\ N1 X = Ok NegInf
   /\ f1 X = Ok PosInf /\ F2 X = Ok PosInf /\ P2 X = Ok PosInf
   /\ N2 X = Ok PosInf /\ f2 X = Ok PosInf)
  /\ Forall (fun pn : (ABCD K -> result (xnum K)) * (ABCD K -> K) =>
               forall Y : ABCD K, exists v, pn.1 Y = Ok v)
            cardinal_points.
Proof.
  intros Hc. split.
  - unfold F1, P1, N1, f1, F2, P2, N2, f2.
    repeat split; apply try_div_None, Hc.
  - unfold cardinal_points.
    repeat (apply Forall_cons; split; [intros Y; apply try_div_Ok|]).
    apply Forall_nil. trivial.
Qed.
End Cardinal.

(** C4 fails as stated: for the inverting relay the ratios defining [F1]
    and [f1] are the same function [-1 / C], yet [F1] is minus infinity and
    [f1] is plus infinity; whichever side [C] approaches 0 from, one of
    the two has the sign opposite to the limit of its ratio. *)
Lemma C4_limiting_sign_fails :
  ~ limiting_sign_policy Lt /\ ~ limiting_sign_policy Gt.
Proof.
  split; intros H; specialize (H inverting_relay eq_refl);
    unfold cardinal_points in H.
  - apply Forall_cons in H as [(s & v & Hs & Hv & HF) _].
    specialize (Hs (-1)%Qc eq_refl). vm_compute in Hs. subst s.
    vm_compute in Hv, HF. congruence.
  - apply Forall_cons in H as [_ H]. apply Forall_cons in H as [_ H].
    apply Forall_cons in H as [_ H].
    apply Forall_cons in H as [(s & v & Hs & Hv & HF) _].
    specialize (Hs 1%Qc eq_refl). vm_compute in Hs. subst s.
    vm_compute in Hv, HF. congruence.
Qed.

(** ** Constructing a Gaussian beam *)

Section Beam.
Context {K V : Type} {numK : PyNum K} {numV : PyNum V} {cKV : Coerce K V}.
Variable equations : solvers K V.
Implicit Types a : gb_args K V.

(** The [if]/[elif] chain of the constructor is the decision table. *)
Lemma GaussianBeam_init_table a :
  GaussianBeam_init equations a = GaussianBeam_table equations a.
Proof.
  unfold GaussianBeam_init, GaussianBeam_table.
  destruct (opt_is_zero (arg_w a) || opt_is_zero (arg_zR a)); [reflexivity|].
  unfold selected, normalise_R, solve, GaussianBeam_qr, beam_of_qr; simpl.
  destruct (arg_q a), (if optx_is_zero (arg_R a) then Some PosInf else arg_R a),
    (arg_w a), (arg_z a), (arg_zR a); reflexivity.
Qed.

Lemma selected_normalise_R a : selected (normalise_R a) = selected a.
Proof.
  unfold selected, normalise_R, supplied; simpl.
  destruct (arg_q a), (arg_R a) as [[r| |]|], (arg_w a), (arg_z a), (arg_zR a);
    simpl; try reflexivity; destruct (r == pzero)%num; reflexivity.
Qed.


(** C6: the solver is chosen by presence in the documented precedence
    order: the constructor is the decision table.  In particular a
    supplied zero is present: [z = 0] with [zR] selects the [(z, zR)]
    solver when [q] and [(R, w)] do not apply, and [R = 0] with [w] selects
    the [(R, w)] solver, run on [R = math.inf]. *)
Theorem C6_precedence :
  (forall a, GaussianBeam_init equations a = GaussianBeam_table equations a)
  /\ (forall a zR0,
        arg_q a = None -> supplied a Cfg_R_w = false ->
        arg_z a = Some pzero -> arg_zR a = Some zR0 ->
        opt_is_zero (arg_w a) || opt_is_zero (arg_zR a) = false ->
        GaussianBeam_init equations a
          = (let* qr := q_from_z_zR equations pzero zR0 (arg_n a) in
             beam_of_qr a qr)%py)
  /\ (forall a r w0,
        arg_q a = None -> arg_R a = Some (Finite r) ->
        (r == pzero)%num = true -> arg_w a = Some w0 ->
        opt_is_zero (arg_w a) || opt_is_zero (arg_zR a) = false ->
        GaussianBeam_init equations a
          = (let* qr := q_from_R_w equations PosInf w0 (arg_lam0 a) (arg_n a) in
             beam_of_qr a qr)%py).
Proof.
  split; [exact GaussianBeam_init_table|split].
  - intros a zR0 Hq HRw Hz HzR Hvalid. unfold GaussianBeam_init.
    rewrite Hvalid. unfold GaussianBeam_qr, beam_of_qr, supplied in *.
    rewrite Hq, Hz, HzR.
    destruct (arg_R a) as [[r| |]|], (arg_w a); simpl in *;
      try discriminate; try reflexivity;
      destruct (r == pzero)%num; reflexivity.
  - intros a r w0 Hq HR Hr Hw Hvalid. unfold GaussianBeam_init.
    rewrite Hvalid. unfold GaussianBeam_qr, beam_of_qr.
    rewrite Hq, HR, Hw; simpl. rewrite Hr. reflexivity.
Qed.
End Beam.

(** ** Free-space transfer *)

Section TransferFacts.
Context {K V : Type} {numK : PyNum K} {numV : PyNum V} {cKV : Coerce K V}.

End TransferFacts.

(** ** The lensmaker's equation on binary64 *)

Section Lensmaker.
Context {trigF : PyTrig float}.
Hypothesis sin_0 : math_sin 0%float = 0%float.
Hypothesis cos_0 : math_cos 0%float = 1%float.
Hypothesis asin_0 : math_asin 0%float = Ok 0%float.

Lemma Refraction_normal_incidence (R m1 m2 : float) :
  PrimFloat.eqb m2 0 = false ->
  PrimFloat.div (m1 * 0) m2 = 0%float ->
  Refraction R m1 m2 0%float "T" no_kwargs
  = (let* c := pdiv (- ((m2 * 1 - m1 * 1) / (1 * 1)))%float R in
     ABCD_init_n1_n2 (1 / 1)%float 0%float c (1 / 1)%float m1 m2 no_kwargs)%py.
Proof.
  intros Hm2 Hx. unfold Refraction.
  change (@math_sin float trigF 0%float) with (math_sin 0%float).
  rewrite sin_0. unfold pdiv at 1. simpl. unfold float_truediv at 1.
  rewrite Hm2, Hx. simpl. rewrite asin_0. simpl. rewrite cos_0.
  reflexivity.
Qed.
(** C8: [ThickLens(10e-3, -10e-3, 0, 1.5)] and [ThinLens(10e-3)] are
    equal under [ABCD.__eq__], which compares [A] to [F] exactly: both
    have [A = 1], [B = 0], [C = -100], [D = 1], [E = 0], [F = 0]. *)
Theorem C8_lensmaker_binary64 :
  exists thin thick : ABCD float,
    ThinLens 0.01%float no_kwargs = Ok thin
    /\ ThickLens 0.01%float (- 0.01)%float 0%float 1.5%float 1%float no_kwargs
       = Ok thick
    /\ ABCD_eq thin thick = true
    /\ coefficients thin = (1, 0, -100, 1, 0, 0)%float
    /\ Forall2 (fun x y => PrimFloat.eqb x y = true)
         [A thick; B thick; C thick; D thick; E thick; F thick]
         [1; 0; -100; 1; 0; 0]%float.
Proof.
  eexists _, _. split; [vm_compute; reflexivity|]. split.
  { unfold ThickLens.
    change (@pzero float float_num) with 0%float.
    rewrite !Refraction_normal_incidence by (vm_compute; reflexivity).
    vm_compute. reflexivity. }
  vm_compute. repeat constructor.
Qed.
End Lensmaker.

(** ** A Gaussian beam through free space, in exact arithmetic *)

Section FreeSpace.
Local Open Scope R_scope.

Lemma R_truediv_Some (x d : R) : d <> 0 -> R_truediv x d = Some (x / d).
Proof. intros Hd. unfold R_truediv. destruct (Req_dec_T d 0); congruence. Qed.

Lemma sum_squares_nonzero (a b : R) : a <> 0 \/ b <> 0 -> a * a + b * b <> 0.
Proof. intros [H|H]; nra. Qed.

Ltac num_R :=
  cbv beta iota delta
    [padd pmul psub pneg pzero pone R_num complex_num c_add c_mul c_sub c_neg
     coerce complex_coerce coerce_id re im real imag complex_parts
     complex_of complex_complex_of].

Lemma R_eqb_false (x y : R) : x <> y -> (x == y)%num = false.
Proof. intros H. simpl. unfold R_eqb. destruct (Req_dec_T x y); congruence. Qed.

Lemma pdiv_R (x d : R) : d <> 0 -> pdiv x d = Ok (x / d).
Proof. intros Hd. unfold pdiv. simpl. rewrite R_truediv_Some by exact Hd. reflexivity. Qed.

Lemma pdiv_complex (a b : complex R) :
  re b <> 0 \/ im b <> 0 ->
  pdiv a b =
    Ok (mkComplex ((re a * re b + im a * im b) / (re b * re b + im b * im b))
                  ((im a * re b - re a * im b) / (re b * re b + im b * im b))).
Proof.
  intros Hb. apply sum_squares_nonzero in Hb. unfold pdiv. simpl.
  unfold c_truediv. simpl. rewrite !R_truediv_Some by exact Hb. reflexivity.
Qed.

Lemma complex_eq (a b : complex R) : re a = re b -> im a = im b -> a = b.
Proof. destruct a, b; simpl; congruence. Qed.

(** The beam built from [(z, zR)] in a medium of index [n0]. *)
Lemma GaussianBeam_init_z_zR (s1 : xnum R -> R -> R -> R -> result (complex R))
    (s3 : xnum R -> R -> R -> result (complex R))
    (s4 : xnum R -> R -> R -> R -> result (complex R))
    (s5 s6 : R -> R -> R -> R -> R -> result (complex R))
    (l0 n0 sign z0 zR0 : R) :
  n0 <> 0 -> zR0 <> 0 ->
  GaussianBeam_init (mkSolvers s1 q_from_z_zR_spec s3 s4 s5 s6)
    (mkGbArgs l0 n0 sign None None None (Some z0) (Some zR0))
  = Ok (mkRay ClsGaussianBeam (mkComplex 1 0)
          (mkComplex (z0 / (z0 * z0 + zR0 * zR0))
                     (- zR0 / (z0 * z0 + zR0 * zR0)))
          n0 l0).
Proof.
  intros Hn HzR.
  assert (Hq : z0 * z0 + zR0 * zR0 <> 0) by (apply sum_squares_nonzero; auto).
  unfold GaussianBeam_init, GaussianBeam_qr, optx_is_zero, opt_is_zero.
  cbn [arg_q arg_R arg_w arg_z arg_zR arg_n arg_lam0 q_from_z_zR orb].
  assert (Hz : (zR0 == pzero)%num = false) by (apply R_eqb_false; exact HzR).
  rewrite Hz.
  unfold q_from_z_zR_spec. num_R.
  rewrite pdiv_complex by (left; exact Hn).
  cbn [rbind]. num_R.
  rewrite pdiv_complex.
  2:{ num_R. right. intros H0. apply HzR.
      rewrite <- H0. field. exact Hn. }
  cbn [rbind]. num_R. do 2 f_equal. apply complex_eq; num_R; field;
    split; auto; nra.
Qed.

(** Free-space propagation of the beam [(z0, zR0)] by an operator with
    [A = 1], [B = L / n0], [C = 0], [D = 1], no offsets and exit index
    [n0]: the beam parameter moves from [q] to [q + L]. *)
Lemma free_space_beam (X : ABCD R) (l0 n0 z0 zR0 L : R) :
  n0 <> 0 -> zR0 <> 0 ->
  A X = 1 -> B X = L / n0 -> C X = 0 -> D X = 1 -> E X = 0 -> F X = 0 ->
  n2 X = n0 ->
  let gb1 := mkRay ClsGaussianBeam (mkComplex 1 0)
               (mkComplex (z0 / (z0 * z0 + zR0 * zR0))
                          (- zR0 / (z0 * z0 + zR0 * zR0))) n0 l0 in
  exists u' : complex R,
    matmul_u X gb1 = Ok u'
    /\ let gb2 := mkRay ClsGaussianBeam (matmul_y X gb1) u' n0 l0 in
       sources.z gb1 = Ok z0 /\ sources.zR gb1 = Ok zR0
       /\ sources.z gb2 = Ok (z0 + L) /\ sources.zR gb2 = Ok zR0
       /\ sources.w0 gb2 = Ok (sqrt (l0 * zR0 / (n0 * PI)))
       /\ sources.w0 gb1 = Ok (sqrt (l0 * zR0 / (n0 * PI)))
       /\ sources.theta gb2 = Ok (sqrt (l0 * zR0 / (n0 * PI)) / zR0)
       /\ sources.theta gb1 = Ok (sqrt (l0 * zR0 / (n0 * PI)) / zR0).
Proof.
  intros Hn HzR HA HB HC HD HE HF Hn2 gb1.
  assert (Hq : z0 * z0 + zR0 * zR0 <> 0) by (apply sum_squares_nonzero; auto).
  assert (HnPI : n0 * PI <> 0).
  { apply Rmult_integral_contrapositive_currified; [exact Hn|].
    apply Rgt_not_eq, PI_RGT_0. }
  assert (Hq1 : sources.q gb1 = Ok (mkComplex z0 zR0)).
  { unfold sources.q, gb1. cbn [y u]. rewrite pdiv_complex.
    - f_equal. apply complex_eq; num_R; field; auto.
    - num_R. right. intros H0. apply HzR.
      apply (Rmult_eq_reg_r (/ (z0 * z0 + zR0 * zR0)));
        [|apply Rinv_neq_0_compat; exact Hq].
      unfold Rdiv in H0. lra. }
  exists (u gb1). split.
  { unfold matmul_u, gb1. cbn [y u n]. rewrite HC, HD, HF, Hn2.
    rewrite pdiv_complex by (num_R; left; exact Hn).
    f_equal. apply complex_eq; num_R; field; auto. }
  assert (Hq2 : sources.q
            (mkRay ClsGaussianBeam (matmul_y X gb1) (u gb1) n0 l0)
          = Ok (mkComplex (z0 + L) zR0)).
  { unfold sources.q, matmul_y, gb1. cbn [y u n]. rewrite HA, HB, HE.
    rewrite pdiv_complex.
    - f_equal. apply complex_eq; num_R; field; auto.
    - num_R. right. intros H0. apply HzR.
      apply (Rmult_eq_reg_r (/ (z0 * z0 + zR0 * zR0)));
        [|apply Rinv_neq_0_compat; exact Hq].
      unfold Rdiv in H0. lra. }
  cbv zeta.
  unfold sources.theta, sources.w0, sources.zR, sources.z.
  rewrite Hq1, Hq2. cbn [rbind real imag complex_parts re im lam0 n].
  change (@math_pi R R_math) with PI. change (@pow_half R R_math) with sqrt.
  rewrite !(pdiv_R _ _ HnPI). cbn [rbind]. rewrite !(pdiv_R _ _ HzR).
  repeat split; reflexivity.
Qed.
(** In exact arithmetic the beam built from [z = 10e-3], [zR = 1e-3] (in
    the default medium [n = 1]) and then sent through [Transfer(100e-3)]
    comes out with [z' = z + L], [zR' = zR], [w0' = w0] and the same
    divergence. *)
Lemma free_space_exact
    (s1 : xnum R -> R -> R -> R -> result (complex R))
    (s3 : xnum R -> R -> R -> result (complex R))
    (s4 : xnum R -> R -> R -> R -> result (complex R))
    (s5 s6 : R -> R -> R -> R -> R -> result (complex R)) :
  exists (gb1 gb2 : Ray R (complex R)) (w theta : R),
    free_space_program (mkSolvers s1 q_from_z_zR_spec s3 s4 s5 s6)
      532e-9 10e-3 1e-3 100e-3 = Ok (gb1, gb2)
    /\ sources.z gb1 = Ok 10e-3 /\ sources.z gb2 = Ok (10e-3 + 100e-3)
    /\ sources.zR gb1 = Ok 1e-3 /\ sources.zR gb2 = Ok 1e-3
    /\ sources.w0 gb1 = Ok w /\ sources.w0 gb2 = Ok w
    /\ sources.theta gb1 = Ok theta /\ sources.theta gb2 = Ok theta.
Proof.
  assert (Hn : (1 : R) <> 0) by lra.
  assert (HzR : 1e-3 <> 0) by lra.
  pose proof (GaussianBeam_init_z_zR s1 s3 s4 s5 s6 532e-9 1 1 10e-3 1e-3
                Hn HzR) as Hgb.
  set (gb1 := mkRay ClsGaussianBeam (mkComplex 1 0)
                (mkComplex (10e-3 / (10e-3 * 10e-3 + 1e-3 * 1e-3))
                           (Ropp 1e-3 / (10e-3 * 10e-3 + 1e-3 * 1e-3)))
                1 532e-9) in *.
  set (fs := ABCD_init (pone : R) (100e-3 / 1) pzero pone no_kwargs).
  assert (Hfs : Transfer 100e-3 1 no_kwargs = Ok fs).
  { unfold Transfer. rewrite (pdiv_R _ _ Hn). reflexivity. }
  destruct (free_space_beam fs 532e-9 1 10e-3 1e-3 100e-3 Hn HzR)
    as (u' & Hu & Hz1 & HzR1 & Hz2 & HzR2 & Hw2 & Hw1 & Ht2 & Ht1);
    try reflexivity.
  { unfold fs, ABCD_init. cbn [E kw_E no_kwargs default kw_disp kw_tilt
      kw_length kw_n1 kw_n2]. num_R. ring. }
  { unfold fs, ABCD_init. cbn [F kw_F no_kwargs default kw_disp kw_tilt
      kw_length kw_n1 kw_n2]. num_R. ring. }
  exists gb1, (mkRay ClsGaussianBeam (matmul_y fs gb1) u' 1 532e-9).
  eexists _, _. split; [|repeat split; eassumption].
  unfold free_space_program.
  change (@pone R R_num) with 1. rewrite Hgb. cbn [rbind]. rewrite Hfs.
  cbn [rbind]. unfold alloc.
  rewrite (ABCD_matmul_ray_store _ _ _ fs gb1 u').
  - cbn [rbind fst snd]. rewrite lookup_insert_eq. reflexivity.
  - apply lookup_insert_eq.
  - rewrite lookup_insert_ne by apply fresh_insert_ne.
    apply lookup_insert_eq.
  - exact Hu.
Qed.
End FreeSpace.

(** *** The same program on binary64 *)


Section FreeSpaceBinary64.
Variable s1 : xnum float -> float -> float -> float -> result pycomplex.
Variable s3 : xnum float -> float -> float -> result pycomplex.
Variable s4 : xnum float -> float -> float -> float -> result pycomplex.
Variables s5 s6 : float -> float -> float -> float -> float
                  -> result pycomplex.

Example free_space_binary64_values :
  (let* p := free_space_program (mkSolvers s1 q_from_z_zR_spec s3 s4 s5 s6)
               532e-9%float 10e-3%float 1e-3%float 100e-3%float in
   let* z2 := sources.z p.2 in
   let* zR1 := sources.zR p.1 in
   let* zR2 := sources.zR p.2 in
   Ok (z2, zR1, zR2))%py
  = Ok (0.11000000000000001%float, 0.0010000000000000002%float,
        0.0010000000000000009%float).
Proof. vm_compute. reflexivity. Qed.

Example free_space_binary64_w0_values :
  (let* p := free_space_program (mkSolvers s1 q_from_z_zR_spec s3 s4 s5 s6)
               532e-9%float 10e-3%float 1e-3%float 100e-3%float in
   let* w := sources.w0 (mathK := float_math PrimFloat.sqrt) p.1 in
   let* w' := sources.w0 (mathK := float_math PrimFloat.sqrt) p.2 in
   let* theta := sources.theta (mathK := float_math PrimFloat.sqrt) p.1 in
   let* theta' := sources.theta (mathK := float_math PrimFloat.sqrt) p.2 in
   Ok (w, w', theta, theta'))%py
  = Ok (1.3013103375051497e-05%float, 1.3013103375051502e-05%float,
        0.013013103375051493%float, 0.013013103375051491%float).
Proof. vm_compute. reflexivity. Qed.

(** On binary64 the same program gives [z'] and [zR'] equal to [z + L] and
    [zR] within the tolerance of [pytest.approx], and, whichever of the
    three floats around the square root [x ** 0.5] returns, [w0'] and the
    divergence equal to [w0] and to the divergence before within the same
    tolerance. *)
Lemma free_space_binary64_close :
  exists gb1 gb2 : Ray float pycomplex,
    free_space_program (mkSolvers s1 q_from_z_zR_spec s3 s4 s5 s6)
      532e-9%float 10e-3%float 1e-3%float 100e-3%float = Ok (gb1, gb2)
    /\ (exists z' zR' : float,
          sources.z gb2 = Ok z' /\ sources.zR gb2 = Ok zR'
          /\ pytest_approx z' (10e-3 + 100e-3)%float = true
          /\ pytest_approx zR' 1e-3%float = true)
    /\ forall pw : float -> float,
         sqrt_or_neighbour pw ->
         exists w w' theta theta' : float,
           sources.w0 (mathK := float_math pw) gb1 = Ok w
           /\ sources.w0 (mathK := float_math pw) gb2 = Ok w'
           /\ sources.theta (mathK := float_math pw) gb1 = Ok theta
           /\ sources.theta (mathK := float_math pw) gb2 = Ok theta'
           /\ pytest_approx w' w = true
           /\ pytest_approx theta' theta = true.
Proof.
  eexists _, _. split; [vm_compute; reflexivity|]. split.
  { eexists _, _. repeat split; vm_compute; reflexivity. }
  intros pw Hpw. eexists _, _, _, _.
  split; [lazy; reflexivity|]. split; [lazy; reflexivity|].
  split; [lazy; reflexivity|]. split; [lazy; reflexivity|].
  repeat match goal with
         | |- context [pw ?a] =>
             destruct (Hpw a) as [Ha|[Ha|Ha]]; rewrite !Ha; clear Ha
         end;
    split; vm_compute; reflexivity.
Qed.
End FreeSpaceBinary64.


(** * The properties at concrete inputs *)

(** C1 at [op_example @ ray_example]: [y' = 1*0.5 + 0.5*1.25*0.25 + 0.25]
    and [u' = (-2*0.5 + 1*1.25*0.25 + 0.125) / 1.5 = -0.375]. *)
Lemma C1_apply_to_ray_witness :
  store_example !! 1%positive = Some (OABCD op_example)
  /\ store_example !! 2%positive = Some (ORay ray_example)
  /\ exists l h',
       ABCD_matmul 1%positive (VObj 2%positive) store_example
         = Ok (VObj l, h')
       /\ store_example !! l = None
       /\ h' !! l = Some (ORay
            (mkRay ClsRay 0.90625%float (-0.375)%float 1.5%float
                   532e-9%float)).
Proof.
  split; [reflexivity|]. split; [reflexivity|].
  exact (C1_apply_to_ray store_example 1%positive 2%positive
           op_example ray_example (-0.375)%float eq_refl eq_refl eq_refl).
Defined.

(** C7 at the same call. *)
Lemma C7_apply_leaves_ray_witness :
  (exists l h',
     ABCD_matmul 1%positive (VObj 2%positive) store_example = Ok (VObj l, h')
     /\ l <> 2%positive
     /\ h' !! 2%positive = Some (ORay ray_example))
  \/ ABCD_matmul 1%positive (VObj 2%positive) store_example
     = Raise ZeroDivisionError.
Proof.
  exact (C7_apply_leaves_ray store_example 1%positive 2%positive
           op_example ray_example eq_refl eq_refl).
Defined.

(** C2 at [op_example @ op_example]. *)
Lemma C2_compose_witness :
  exists l h',
    ABCD_matmul 1%positive (VObj 1%positive) store_example = Ok (VObj l, h')
    /\ store_example !! l = None
    /\ h' !! l = Some (OABCD
         (mkABCD 0 1 (-4) 0 0.5625 (-0.25) 1 1.5)%float)
    /\ h' !! 1%positive = Some (OABCD op_example)
    /\ h' !! 1%positive = Some (OABCD op_example).
Proof.
  exact (C2_compose store_example 1%positive 1%positive
           op_example op_example eq_refl eq_refl).
Defined.


(** C4 on the binary64 operator [ABCD(2, 0.5, 0, 0.5)]. *)
Lemma C4_afocal_fixed_infinities_witness :
  (forall num : float, ptruediv num (C afocal_example) = None)
  /\ F1 afocal_example = Ok NegInf /\ P1 afocal_example = Ok NegInf
  /\ N1 afocal_example = Ok NegInf /\ f1 afocal_example = Ok PosInf
  /\ F2 afocal_example = Ok PosInf /\ P2 afocal_example = Ok PosInf
  /\ N2 afocal_example = Ok PosInf /\ f2 afocal_example = Ok PosInf.
Proof.
  assert (H : forall num : float, ptruediv num (C afocal_example) = None)
    by (intros num; reflexivity).
  split; [exact H|].
  exact (proj1 (C4_afocal_fixed_infinities afocal_example H)).
Defined.


(** C6 at [GaussianBeam(R=1, z=0, zR=1)], where [(z, zR)] wins over
    [(R, z)] and [(R, zR)] and [z = 0] is present, and at
    [GaussianBeam(R=0, w=1)], where the [(R, w)] solver runs on
    [R = math.inf]; for any solvers. *)
Lemma C6_precedence_witness :
  (forall equations : solvers Qc (complex Qc),
     GaussianBeam_init equations beam_R1_z0_zR1
     = (let* qr := q_from_z_zR equations pzero 1%Qc (arg_n beam_R1_z0_zR1) in
        beam_of_qr beam_R1_z0_zR1 qr)%py)
  /\ (forall equations : solvers Qc (complex Qc),
        GaussianBeam_init equations beam_R0_w1
        = (let* qr := q_from_R_w equations PosInf 1%Qc
                        (arg_lam0 beam_R0_w1) (arg_n beam_R0_w1) in
           beam_of_qr beam_R0_w1 qr)%py).
Proof.
  split; intros equations;
    destruct (C6_precedence (K := Qc) (V := complex Qc) equations)
      as (_ & H2 & H3).
  - apply (H2 beam_R1_z0_zR1 1%Qc); reflexivity.
  - apply (H3 beam_R0_w1 0%Qc 1%Qc); reflexivity.
Defined.


(** C8 with sine, cosine and arcsine exact at 0. *)
Lemma C8_lensmaker_binary64_witness :
  math_sin (PyTrig := trig_at_zero) 0%float = 0%float
  /\ math_cos (PyTrig := trig_at_zero) 0%float = 1%float
  /\ math_asin (PyTrig := trig_at_zero) 0%float = Ok 0%float
  /\ exists thin thick : ABCD float,
       ThinLens 0.01%float no_kwargs = Ok thin
       /\ ThickLens (trigK := trig_at_zero) 0.01%float (- 0.01)%float
            0%float 1.5%float 1%float no_kwargs = Ok thick
       /\ ABCD_eq thin thick = true
       /\ coefficients thin = (1, 0, -100, 1, 0, 0)%float
       /\ Forall2 (fun x y => PrimFloat.eqb x y = true)
            [A thick; B thick; C thick; D thick; E thick; F thick]
            [1; 0; -100; 1; 0; 0]%float.
Proof.
  repeat (split; [reflexivity|]).
  exact (@C8_lensmaker_binary64 trig_at_zero eq_refl eq_refl eq_refl).
Defined.


(** * Further properties of the code *)

(** ** What [@] and [add_misalignments] do to the store *)

Section StoreFacts.
Context {K V : Type} {numK : PyNum K} {numV : PyNum V} {cKV : Coerce K V}.
Implicit Types (h : gmap loc (obj K V)) (X Y : ABCD K) (r : Ray K V).

Lemma fresh_lookup_ne h l (o : obj K V) :
  h !! l = Some o -> l <> fresh (dom h).
Proof.
  intros Hl Heq. pose proof (is_fresh (dom h)) as Hf.
  apply not_elem_of_dom in Hf. rewrite <- Heq in Hf. congruence.
Qed.

(** X1: whatever the right operand is, a call [X @ other] that returns
    leaves every object of the store as it was; it returns [None] with the
    store untouched, or an object at a location that was free before, the
    only location where the store differs. *)
Theorem matmul_allocates_only h lx other v h' :
  ABCD_matmul lx other h = Ok (v, h') ->
  (forall l o, h !! l = Some o -> h' !! l = Some o)
  /\ match v with
     | VNone => h' = h
     | VObj l => h !! l = None /\ forall l', l' <> l -> h' !! l' = h !! l'
     end.
Proof.
  unfold ABCD_matmul.
  destruct (h !! lx) as [[X|r0]|]; try discriminate.
  destruct other as [lo|]; [|intros [= <- <-]; split; [auto|reflexivity]].
  assert (Hf : h !! fresh (dom h) = None) by apply not_elem_of_dom, is_fresh.
  destruct (h !! lo) as [[Y|r]|]; try discriminate.
  - simpl. intros [= <- <-]. split; [|split; [exact Hf|]].
    + intros l o Hl. rewrite lookup_insert_ne; [exact Hl|].
      apply not_eq_sym. exact (fresh_lookup_ne _ _ _ Hl).
    + intros l' Hne. apply lookup_insert_ne. congruence.
  - destruct (matmul_u X r) as [u'|e]; try discriminate.
    simpl. rewrite !alter_insert_eq. intros [= <- <-].
    split; [|split; [exact Hf|]].
    + intros l o Hl. rewrite lookup_insert_ne; [exact Hl|].
      apply not_eq_sym. exact (fresh_lookup_ne _ _ _ Hl).
    + intros l' Hne. apply lookup_insert_ne. congruence.
Qed.

(** X2: the in-place form [X @= Y] evaluates [Y @ X]: the name is rebound
    to a new operator whose matrix is the product with [Y] on the left,
    the object [X] itself is not updated, and with a ray on the right-hand
    side the statement is a [TypeError]. *)
Theorem ABCD_imatmul_reverses h lx :
  (forall ly X Y,
     h !! lx = Some (OABCD X) -> h !! ly = Some (OABCD Y) ->
     exists l h',
       ABCD_imatmul lx (VObj ly) h = Ok (VObj l, h')
       /\ h !! l = None
       /\ h' !! l = Some (OABCD (matmul_ABCD Y X))
       /\ h' !! lx = Some (OABCD X) /\ h' !! ly = Some (OABCD Y))
  /\ (forall lr r,
        h !! lr = Some (ORay r) ->
        ABCD_imatmul lx (VObj lr) h = Raise TypeError).
Proof.
  split.
  - intros ly X Y Hx Hy.
    assert (Hf : h !! fresh (dom h) = None) by apply not_elem_of_dom, is_fresh.
    exists (fresh (dom h)), (<[fresh (dom h) := OABCD (matmul_ABCD Y X)]> h).
    split; [|split; [exact Hf|split; [|split]]].
    + unfold ABCD_imatmul, ABCD_matmul. rewrite Hy, Hx. reflexivity.
    + apply lookup_insert_eq.
    + rewrite lookup_insert_ne by congruence. exact Hx.
    + rewrite lookup_insert_ne by congruence. exact Hy.
  - intros lr r Hr. unfold ABCD_imatmul. rewrite Hr. reflexivity.
Qed.

(** X3: [add_misalignments(disp, tilt, length)] leaves the operator in
    the state in which [ABCD.__init__] builds it from the same matrix, the
    same indices and these misalignments: the offsets [E] and [F] stored
    before are discarded, not added to, and no other object changes.
    Hence of two calls in a row only the second one counts. *)
Theorem add_misalignments_as_init h l X disp tilt length :
  h !! l = Some (OABCD X) ->
  add_misalignments l disp tilt length h
  = Ok (VNone,
        <[l := OABCD (ABCD_init (A X) (B X) (C X) (D X)
                        (mkKwargs (Some (n1 X)) (Some (n2 X)) (Some disp)
                                  (Some tilt) (Some length) None None))]> h)
  /\ forall disp0 tilt0 length0,
       (let* vh := add_misalignments l disp0 tilt0 length0 h in
        add_misalignments l disp tilt length vh.2)%py
       = add_misalignments l disp tilt length h.
Proof.
  intros Hl. unfold add_misalignments. rewrite Hl. split; [reflexivity|].
  intros disp0 tilt0 length0. simpl. rewrite lookup_insert_eq. simpl.
  rewrite insert_insert_eq. reflexivity.
Qed.
End StoreFacts.

(** ** Composition against application, in exact arithmetic *)

Section ApplyCompose.
Context {K V : Type} {numK : PyNum K} {numV : PyNum V} {cKV : Coerce K V}.
Hypothesis V_ring : ring_theory pzero pone padd pmul psub pneg (@eq V).
Hypothesis coerce_add :
  forall a b : K, coerce (a + b)%num = (coerce a + coerce b)%num.
Hypothesis coerce_mul :
  forall a b : K, coerce (a * b)%num = (coerce a * coerce b)%num.
Hypothesis div_mul :
  forall a b c : V, ptruediv a b = Some c -> (c * b)%num = a.
Add Ring V_ring_apply : V_ring.
Implicit Types (X Y : ABCD K) (r : Ray K V).

(** X4: when the arithmetic is exact, applying the composite [X @ Y] to a
    ray gives the same height and the same angle as applying [Y] and then
    [X]: with [r1] the ray that [Y @ r] returns, [(X @ Y) @ r] and
    [X @ r1] compute the same [y] and the same [u] (or both raise on the
    division by [n2] of [X]). *)
Theorem compose_then_apply X Y r u1 :
  matmul_u Y r = Ok u1 ->
  let r1 := mkRay (cls r) (matmul_y Y r) u1 (n2 Y) (lam0 r) in
  matmul_y (matmul_ABCD X Y) r = matmul_y X r1
  /\ matmul_u (matmul_ABCD X Y) r = matmul_u X r1.
Proof.
  intros Hu r1. unfold matmul_u, pdiv in Hu.
  destruct (ptruediv _ _) as [u1'|] eqn:Hd in Hu; [|discriminate].
  injection Hu as ->. apply div_mul in Hd.
  assert (HD : forall d : K,
            (coerce (d * n2 Y) * u1)%num
            = (coerce d * (coerce (C Y) * y r + coerce (D Y * n r) * u r
                           + coerce (F Y)))%num).
  { intros d. rewrite <- Hd, coerce_mul. ring. }
  unfold r1, matmul_y, matmul_u. rewrite matmul_ABCD_attrs.
  cbn [A B C D E F n1 n2 y u n].
  rewrite !HD, !coerce_add, !coerce_mul, !coerce_add, !coerce_mul.
  split; [|f_equal]; ring.
Qed.
End ApplyCompose.

(** ** The determinant *)

Section Determinant.
Context {K : Type} {numK : PyNum K}.
Hypothesis K_ring : ring_theory pzero pone padd pmul psub pneg (@eq K).
Add Ring K_ring_det : K_ring.
Context {trigK : PyTrig K}.
Implicit Types X Y : ABCD K.

(** X5: in exact arithmetic the determinant of [X @ Y] is the product of
    the determinants, so composing operators of determinant 1 gives an
    operator of determinant 1. *)
Theorem det_matmul X Y :
  det (matmul_ABCD X Y) = (det X * det Y)%num
  /\ (det X = pone -> det Y = pone -> det (matmul_ABCD X Y) = pone).
Proof.
  assert (H : det (matmul_ABCD X Y) = (det X * det Y)%num).
  { unfold det. rewrite matmul_ABCD_attrs. cbn [A B C D]. ring. }
  split; [exact H|]. intros HX HY. rewrite H, HX, HY. ring.
Qed.

(** X6: in exact arithmetic every operator that [Transfer], [ThinLens] or
    [Mirror] builds has determinant 1, whatever the arguments and the
    keywords are. *)
Theorem elements_unimodular (kw : kwargs K) X :
  (forall t n0, Transfer t n0 kw = Ok X -> det X = pone)
  /\ (forall f, ThinLens f kw = Ok X -> det X = pone)
  /\ (forall R AOI T_or_S, Mirror R AOI T_or_S kw = Ok X -> det X = pone).
Proof.
  split; [|split].
  - intros t n0. unfold Transfer. destruct (pdiv t n0); simpl; [|discriminate].
    intros [= <-]. unfold det. simpl. ring.
  - intros f. unfold ThinLens. destruct (pdiv _ f); simpl; [|discriminate].
    intros [= <-]. unfold det. simpl. ring.
  - intros R AOI T_or_S. unfold Mirror.
    destruct (if String.eqb _ _ then _ else _) as [Re|]; simpl; [|discriminate].
    destruct (pdiv _ Re); simpl; [|discriminate].
    intros [= <-]. unfold det. simpl. ring.
Qed.
End Determinant.

(** ** The plane selector of the oblique elements *)

Section PlaneSelector.
Context {K : Type} {numK : PyNum K} {trigK : PyTrig K} {ordK : PyOrd K}.

Lemma Mirror_t (R AOI : K) (T_or_S : string) (kw : kwargs K) :
  str_lower T_or_S = "t"%string ->
  Mirror R AOI T_or_S kw
  = (let* c := pdiv ptwo (R * math_cos AOI)%num in
     Ok (ABCD_init pone pzero c pone kw))%py.
Proof. intros Hs. unfold Mirror. rewrite Hs. reflexivity. Qed.

Lemma Mirror_s (R AOI : K) (T_or_S : string) (kw : kwargs K) :
  str_lower T_or_S = "s"%string ->
  Mirror R AOI T_or_S kw
  = (let* Re := pdiv R (math_cos AOI) in
     let* c := pdiv ptwo Re in
     Ok (ABCD_init pone pzero c pone kw))%py.
Proof. intros Hs. unfold Mirror. rewrite Hs. reflexivity. Qed.

Lemma Grating_t (R m d l0 AOI : K) (T_or_S : string) (sign : K)
    (kw : kwargs K) :
  str_lower T_or_S = "t"%string ->
  Grating R m d l0 AOI T_or_S sign kw
  = (let sign := if pgeb sign pzero then pone else (- pone)%num in
     let* x := pdiv (m * l0)%num d in
     let* AOE := math_asin (x + sign * math_sin AOI)%num in
     let C1 := math_cos AOI in
     let C2 := math_cos AOE in
     let* Rt := pdiv (ptwo * R * C1 * C2)%num (C1 + C2)%num in
     let* M := pdiv C2 C1 in
     let* c := pdiv ptwo Rt in
     let* d' := pdiv pone M in
     Ok (ABCD_init M pzero c d' kw))%py.
Proof. intros Hs. unfold Grating. rewrite Hs. reflexivity. Qed.

Lemma Grating_s (R m d l0 AOI : K) (T_or_S : string) (sign : K)
    (kw : kwargs K) :
  str_lower T_or_S = "s"%string ->
  Grating R m d l0 AOI T_or_S sign kw
  = (let sign := if pgeb sign pzero then pone else (- pone)%num in
     let* x := pdiv (m * l0)%num d in
     let* AOE := math_asin (x + sign * math_sin AOI)%num in
     let C1 := math_cos AOI in
     let C2 := math_cos AOE in
     let* Rs := pdiv (ptwo * R)%num (C1 + C2)%num in
     let* c := pdiv ptwo Rs in
     Ok (ABCD_init pone pzero c pone kw))%py.
Proof. intros Hs. unfold Grating. rewrite Hs. reflexivity. Qed.

(** X15: [Refraction], [Mirror] and [Grating] read the plane letter
    without regard to case: a letter whose lower case is [t] selects the
    tangential plane, one whose lower case is [s] the sagittal plane.  Any
    other string is a [ValueError] that quotes the string as given: at
    once in [Mirror], and once the angle of exit has been computed in
    [Refraction] and [Grating]. *)
Theorem plane_letter (T_or_S : string) (Rd AOI : K) (kw : kwargs K) :
  (str_lower T_or_S = "t"%string ->
   (forall m1 m2, Refraction Rd m1 m2 AOI T_or_S kw
                  = Refraction Rd m1 m2 AOI "T" kw)
   /\ Mirror Rd AOI T_or_S kw = Mirror Rd AOI "T" kw
   /\ forall m d l0 sign, Grating Rd m d l0 AOI T_or_S sign kw
                          = Grating Rd m d l0 AOI "T" sign kw)
  /\ (str_lower T_or_S = "s"%string ->
      (forall m1 m2, Refraction Rd m1 m2 AOI T_or_S kw
                     = Refraction Rd m1 m2 AOI "S" kw)
      /\ Mirror Rd AOI T_or_S kw = Mirror Rd AOI "S" kw
      /\ forall m d l0 sign, Grating Rd m d l0 AOI T_or_S sign kw
                             = Grating Rd m d l0 AOI "S" sign kw)
  /\ (str_lower T_or_S <> "t"%string -> str_lower T_or_S <> "s"%string ->
      let unknown := Raise (ValueError ("Unknown T_or_S: " ++ T_or_S)) in
      Mirror Rd AOI T_or_S kw = unknown
      /\ (forall m1 m2 x AOE,
            pdiv (m1 * math_sin AOI)%num m2 = Ok x -> math_asin x = Ok AOE ->
            Refraction Rd m1 m2 AOI T_or_S kw = unknown)
      /\ (forall m d l0 sign x AOE,
            pdiv (m * l0)%num d = Ok x ->
            math_asin
              (x + (if pgeb sign pzero then pone else - pone)
                   * math_sin AOI)%num = Ok AOE ->
            Grating Rd m d l0 AOI T_or_S sign kw = unknown)).
Proof.
  split; [|split].
  - intros Hs. split; [|split].
    + intros m1 m2. unfold Refraction, Refraction_plane. rewrite Hs.
      reflexivity.
    + rewrite Mirror_t by exact Hs. rewrite Mirror_t by reflexivity.
      reflexivity.
    + intros m d l0 sign. rewrite Grating_t by exact Hs.
      rewrite Grating_t by reflexivity. reflexivity.
  - intros Hs. split; [|split].
    + intros m1 m2. unfold Refraction, Refraction_plane. rewrite Hs.
      reflexivity.
    + rewrite Mirror_s by exact Hs. rewrite Mirror_s by reflexivity.
      reflexivity.
    + intros m d l0 sign. rewrite Grating_s by exact Hs.
      rewrite Grating_s by reflexivity. reflexivity.
  - intros Ht Hs unknown.
    apply String.eqb_neq in Ht. apply String.eqb_neq in Hs.
    split; [|split].
    + unfold Mirror. rewrite Ht, Hs. reflexivity.
    + intros m1 m2 x AOE Hx Ha. unfold Refraction, Refraction_plane.
      rewrite Hx. cbn [rbind]. rewrite Ha. cbn [rbind]. rewrite Ht, Hs.
      reflexivity.
    + intros m d l0 sign x AOE Hx Ha. unfold Grating.
      rewrite Hx. cbn [rbind]. rewrite Ha. cbn [rbind]. rewrite Ht, Hs.
      reflexivity.
Qed.
End PlaneSelector.

(** ** Operators over exact real numbers *)

Section ExactReals.
Local Open Scope R_scope.
Implicit Types X Y : ABCD R.

Ltac real_num :=
  cbv beta iota delta
    [padd pmul psub pneg pzero pone ptwo R_num complex_num c_add c_mul c_sub
     c_neg coerce complex_coerce coerce_id re im real imag complex_parts
     complex_of complex_complex_of math_sin math_cos math_asin R_trig
     math_pi pow_half R_math pgeb pltb R_ord].

Lemma pdiv_R_zero (x : R) : pdiv x 0 = Raise ZeroDivisionError.
Proof.
  unfold pdiv. simpl. unfold R_truediv.
  destruct (Req_dec_T 0 0); [reflexivity|congruence].
Qed.

Lemma try_Ok {T : Type} (v handler : T) :
  try_except_ZeroDivisionError (Ok v) handler = Ok v.
Proof. reflexivity. Qed.

(** X7: for an operator with [C <> 0], in exact arithmetic, the eight
    cardinal points are finite and tied by [P1 = F1 + f1],
    [P2 = F2 - f2], [N1 = F1 + f2] and [N2 = F2 - f1]; between equal
    indices the two focal lengths agree and the nodal points are the
    principal points. *)
Theorem cardinal_points_relations X :
  C X <> 0 ->
  exists vF1 vP1 vN1 vf1 vF2 vP2 vN2 vf2 : R,
    (F1 X = Ok (Finite vF1) /\ P1 X = Ok (Finite vP1)
     /\ N1 X = Ok (Finite vN1) /\ f1 X = Ok (Finite vf1)
     /\ F2 X = Ok (Finite vF2) /\ P2 X = Ok (Finite vP2)
     /\ N2 X = Ok (Finite vN2) /\ f2 X = Ok (Finite vf2))
    /\ vP1 = vF1 + vf1 /\ vP2 = vF2 - vf2
    /\ vN1 = vF1 + vf2 /\ vN2 = vF2 - vf1
    /\ (n1 X = n2 X -> vf1 = vf2 /\ vN1 = vP1 /\ vN2 = vP2).
Proof.
  intros HC. unfold F1, P1, N1, f1, F2, P2, N2, f2.
  rewrite !(pdiv_R _ _ HC). cbn [rbind]. rewrite !try_Ok.
  eexists _, _, _, _, _, _, _, _.
  split; [repeat split; reflexivity|]. real_num.
  do 4 (split; [field; exact HC|]).
  intros Hn. rewrite Hn. repeat split; field; exact HC.
Qed.

(** X8: two free-space transfers in the same medium compose to the
    transfer over the sum of the two lengths; a transfer in a medium of
    index 0 raises [ZeroDivisionError]. *)
Theorem Transfer_additive (t1 t2 n0 : R) :
  (n0 <> 0 ->
   exists X1 X2 X12,
     Transfer t1 n0 no_kwargs = Ok X1
     /\ Transfer t2 n0 no_kwargs = Ok X2
     /\ Transfer (t1 + t2) n0 no_kwargs = Ok X12
     /\ attributes (matmul_ABCD X1 X2) = attributes X12)
  /\ forall kw, Transfer t1 0 kw = Raise ZeroDivisionError.
Proof.
  split.
  - intros Hn. unfold Transfer. rewrite !(pdiv_R _ _ Hn). cbn [rbind].
    eexists _, _, _. repeat (split; [reflexivity|]).
    unfold attributes, coefficients. rewrite matmul_ABCD_attrs.
    unfold ABCD_init. simpl. real_num.
    repeat apply (f_equal2 pair); field; exact Hn.
  - intros kw. unfold Transfer. rewrite pdiv_R_zero. reflexivity.
Qed.

(** X9: [ThinLens(f)] with [f <> 0] has, in exact arithmetic, both focal
    lengths equal to [f], its focal points at [-f] and [f] and its
    principal and nodal points at the lens; [ThinLens(0)] raises
    [ZeroDivisionError]. *)
Theorem ThinLens_cardinal_points (f : R) :
  (f <> 0 ->
   exists X,
     ThinLens f no_kwargs = Ok X
     /\ f1 X = Ok (Finite f) /\ f2 X = Ok (Finite f)
     /\ F1 X = Ok (Finite (- f)) /\ F2 X = Ok (Finite f)
     /\ P1 X = Ok (Finite 0) /\ P2 X = Ok (Finite 0)
     /\ N1 X = Ok (Finite 0) /\ N2 X = Ok (Finite 0))
  /\ forall kw, ThinLens 0 kw = Raise ZeroDivisionError.
Proof.
  split.
  - intros Hf. unfold ThinLens. rewrite (pdiv_R _ _ Hf). cbn [rbind].
    eexists. split; [reflexivity|].
    assert (HC : (- pone / f : R) <> 0).
    { real_num. intros H0. apply (Rmult_eq_compat_r f) in H0.
      field_simplify in H0; [lra|exact Hf]. }
    unfold F1, P1, N1, f1, F2, P2, N2, f2, ABCD_init.
    cbn [A B C D n1 n2 kw_n1 kw_n2 no_kwargs default].
    rewrite !(pdiv_R _ _ HC). cbn [rbind]. rewrite !try_Ok. real_num.
    repeat split; do 2 f_equal; field; exact Hf.
  - intros kw. unfold ThinLens. rewrite pdiv_R_zero. reflexivity.
Qed.

(** X10: two thin lenses in contact act, in exact arithmetic, as one thin
    lens whose power is the sum of the two powers,
    [1/f = 1/fa + 1/fb], in either order. *)
Theorem ThinLens_in_contact (fa fb : R) :
  fa <> 0 -> fb <> 0 -> fa + fb <> 0 ->
  exists Xa Xb Xab,
    ThinLens fa no_kwargs = Ok Xa /\ ThinLens fb no_kwargs = Ok Xb
    /\ ThinLens (fa * fb / (fa + fb)) no_kwargs = Ok Xab
    /\ attributes (matmul_ABCD Xa Xb) = attributes Xab
    /\ attributes (matmul_ABCD Xb Xa) = attributes Xab.
Proof.
  intros Ha Hb Hab.
  assert (Hf : fa * fb / (fa + fb) <> 0).
  { intros H0. apply (Rmult_eq_compat_r (fa + fb)) in H0.
    field_simplify in H0; [|exact Hab].
    apply Rmult_integral in H0. tauto. }
  unfold ThinLens. rewrite (pdiv_R _ _ Ha), (pdiv_R _ _ Hb), (pdiv_R _ _ Hf).
  cbn [rbind]. eexists _, _, _. repeat (split; [reflexivity|]).
  unfold attributes, coefficients. rewrite !matmul_ABCD_attrs.
  unfold ABCD_init. simpl. real_num.
  split; repeat apply (f_equal2 pair); field; auto.
Qed.

Lemma R_asin_0 (x : R) : x = 0 -> R_asin x = Ok 0.
Proof.
  intros ->. unfold R_asin.
  destruct (Rle_dec (-1) 0); [|lra]. destruct (Rle_dec 0 1); [|lra].
  rewrite asin_0. reflexivity.
Qed.

(** Refraction at normal incidence, in either plane. *)
Lemma Refraction_R_normal (Rd m1 m2 : R) (T_or_S : string) (kw : kwargs R) :
  m2 <> 0 -> Rd <> 0 ->
  str_lower T_or_S = "t"%string \/ str_lower T_or_S = "s"%string ->
  Refraction Rd m1 m2 0 T_or_S kw
  = ABCD_init_n1_n2 1 0 (- (m2 - m1) / Rd) 1 m1 m2 kw.
Proof.
  intros Hm2 HRd Hs. unfold Refraction. real_num. rewrite sin_0.
  rewrite (pdiv_R _ _ Hm2). cbn [rbind].
  rewrite R_asin_0 by (field; exact Hm2). cbn [rbind]. rewrite cos_0.
  assert (H1 : (1 : R) <> 0) by lra.
  assert (H11 : (1 * 1 : R) <> 0) by lra.
  unfold Refraction_plane. destruct Hs as [-> | ->]; cbn [String.eqb Ascii.eqb Bool.eqb].
  - real_num. rewrite !(pdiv_R _ _ H1). cbn [rbind fst snd].
    rewrite (pdiv_R _ _ H11). cbn [rbind]. rewrite (pdiv_R _ _ HRd).
    cbn [rbind]. f_equal; field; exact HRd.
  - real_num. cbn [rbind fst snd].
    rewrite (pdiv_R _ _ H1). cbn [rbind]. rewrite (pdiv_R _ _ HRd).
    cbn [rbind]. f_equal; field; exact HRd.
Qed.

(** X11: the thick lens in exact arithmetic.  With the surface powers
    [phi1 = (n_glass - n_ambient) / R1] and
    [phi2 = (n_ambient - n_glass) / R2] and the reduced thickness
    [tau = t / n_glass], [ThickLens] builds the operator with
    [A = 1 - tau*phi1], [B = tau], [C = -(phi1 + phi2 - tau*phi1*phi2)],
    [D = 1 - tau*phi2], no offsets and the ambient index on both sides;
    its determinant is 1. *)
Theorem ThickLens_Gullstrand (R1 R2 t n_glass n_ambient : R) :
  R1 <> 0 -> R2 <> 0 -> n_glass <> 0 -> n_ambient <> 0 ->
  let phi1 := (n_glass - n_ambient) / R1 in
  let phi2 := (n_ambient - n_glass) / R2 in
  let tau := t / n_glass in
  exists X,
    ThickLens R1 R2 t n_glass n_ambient no_kwargs = Ok X
    /\ attributes X
       = (1 - tau * phi1, tau, - (phi1 + phi2 - tau * phi1 * phi2),
          1 - tau * phi2, 0, 0, n_ambient, n_ambient)
    /\ det X = 1.
Proof.
  intros HR1 HR2 Hg Ha phi1 phi2 tau. unfold ThickLens.
  change (@pzero R R_num) with 0.
  rewrite !Refraction_R_normal by (auto; left; reflexivity).
  unfold Transfer. rewrite (pdiv_R _ _ Hg).
  unfold ABCD_init_n1_n2. cbn [kw_n1 kw_n2 no_kwargs rbind].
  eexists. split; [reflexivity|].
  unfold det, attributes, coefficients. rewrite !matmul_ABCD_attrs.
  unfold ABCD_init. simpl. real_num. unfold phi1, phi2, tau.
  split; [repeat apply (f_equal2 pair)|]; field; auto.
Qed.

(** X12: at normal incidence, in exact arithmetic, [Refraction] builds
    the same operator in the tangential and in the sagittal plane:
    [A = D = 1], [B = 0], [C = -(n2 - n1) / R], with the two indices
    stored. *)
Theorem Refraction_normal_T_equals_S (Rd m1 m2 : R) (T_or_S : string) :
  m2 <> 0 -> Rd <> 0 ->
  str_lower T_or_S = "t"%string \/ str_lower T_or_S = "s"%string ->
  Refraction Rd m1 m2 0 T_or_S no_kwargs
  = Ok (mkABCD 1 0 (- (m2 - m1) / Rd) 1 0 0 m1 m2).
Proof.
  intros Hm2 HRd Hs. rewrite Refraction_R_normal by assumption.
  unfold ABCD_init_n1_n2, ABCD_init. simpl. real_num.
  do 2 f_equal; ring.
Qed.

(** X13: beyond the critical angle, where [n1 * sin(AOI) / n2] leaves
    [[-1, 1]], [Refraction] raises the [ValueError] of [math.asin],
    whatever the radius and the plane are. *)
Theorem Refraction_beyond_critical_angle (Rd m1 m2 AOI : R)
    (T_or_S : string) (kw : kwargs R) :
  m2 <> 0 ->
  1 < m1 * sin AOI / m2 \/ m1 * sin AOI / m2 < -1 ->
  Refraction Rd m1 m2 AOI T_or_S kw = Raise (ValueError math_domain_error).
Proof.
  intros Hm2 Hx. unfold Refraction. real_num.
  rewrite (pdiv_R _ _ Hm2). cbn [rbind]. unfold R_asin.
  destruct (Rle_dec (-1) (m1 * sin AOI / m2));
    [destruct (Rle_dec (m1 * sin AOI / m2) 1)|]; try reflexivity.
  lra.
Qed.

(** X14: a mirror of radius 0 cannot be built: in either plane and at any
    angle the constructor raises [ZeroDivisionError].  A mirror of radius
    [R <> 0] at an angle with [cos(AOI) <> 0] has [A = D = 1], [B = 0] and
    [C = 2 / (R * cos(AOI))] in the tangential plane,
    [C = 2 * cos(AOI) / R] in the sagittal plane, which agree at normal
    incidence. *)
Theorem Mirror_planes (Rd AOI : R) (kw : kwargs R) :
  (forall T_or_S,
     str_lower T_or_S = "t"%string \/ str_lower T_or_S = "s"%string ->
     Mirror 0 AOI T_or_S kw = Raise ZeroDivisionError)
  /\ (Rd <> 0 -> cos AOI <> 0 ->
      Mirror Rd AOI "T" kw
      = Ok (ABCD_init 1 0 (2 / (Rd * cos AOI)) 1 kw)
      /\ Mirror Rd AOI "S" kw
         = Ok (ABCD_init 1 0 (2 * cos AOI / Rd) 1 kw))
  /\ (Rd <> 0 -> Mirror Rd 0 "T" kw = Mirror Rd 0 "S" kw).
Proof.
  split; [|split].
  - intros T_or_S [Hs|Hs].
    + rewrite Mirror_t by exact Hs. real_num.
      rewrite Rmult_0_l, pdiv_R_zero. reflexivity.
    + rewrite Mirror_s by exact Hs. real_num.
      destruct (Req_dec_T (cos AOI) 0) as [Hc|Hc].
      * rewrite Hc, pdiv_R_zero. reflexivity.
      * rewrite (pdiv_R _ _ Hc). cbn [rbind].
        replace (0 / cos AOI) with 0 by (field; exact Hc).
        rewrite pdiv_R_zero. reflexivity.
  - intros HRd Hc.
    rewrite Mirror_t by reflexivity. rewrite Mirror_s by reflexivity.
    real_num.
    assert (HRe : Rd * cos AOI <> 0)
      by (apply Rmult_integral_contrapositive_currified; assumption).
    assert (HRs : Rd / cos AOI <> 0).
    { unfold Rdiv. apply Rmult_integral_contrapositive_currified;
        [assumption|apply Rinv_neq_0_compat; assumption]. }
    rewrite (pdiv_R _ _ Hc). cbn [rbind].
    rewrite (pdiv_R _ _ HRe), (pdiv_R _ _ HRs). cbn [rbind].
    split; [reflexivity|]. do 2 f_equal. field. split; assumption.
  - intros HRd.
    rewrite Mirror_t by reflexivity. rewrite Mirror_s by reflexivity.
    real_num. rewrite cos_0.
    assert (H1 : (1 : R) <> 0) by lra. rewrite (pdiv_R _ _ H1). cbn [rbind].
    replace (Rd / 1) with (Rd * 1) by field. reflexivity.
Qed.

(** The duct of a medium with [n2 / n0 > 0]. *)
Lemma Duct_R (t n0 n2' : R) (kw : kwargs R) :
  n0 <> 0 -> 0 < n2' / n0 ->
  let g := sqrt (n2' / n0) in
  Duct t n0 n2' kw
  = Ok (ABCD_init (cos (g * t)) (sin (g * t) / (n0 * g))
                  (- n0 * g * sin (g * t)) (cos (g * t)) kw).
Proof.
  intros Hn Hx g. unfold Duct. rewrite (pdiv_R _ _ Hn). cbn [rbind].
  real_num. destruct (Rlt_dec (n2' / n0) 0) as [Hlt|_]; [lra|].
  assert (Hg : n0 * sqrt (n2' / n0) <> 0).
  { apply Rmult_integral_contrapositive_currified; [exact Hn|].
    apply Rgt_not_eq, sqrt_lt_R0, Hx. }
  rewrite (pdiv_R _ _ Hg). reflexivity.
Qed.

(** X16: for [n2 / n0 > 0] the operator that [Duct] builds has
    determinant 1 and equal [A] and [D], whatever the length is. *)
Theorem Duct_unimodular (t n0 n2' : R) :
  n0 <> 0 -> 0 < n2' / n0 ->
  exists X, Duct t n0 n2' no_kwargs = Ok X /\ det X = 1 /\ A X = D X.
Proof.
  intros Hn Hx. rewrite (Duct_R _ _ _ _ Hn Hx). eexists. split; [reflexivity|].
  split; [|reflexivity]. unfold det, ABCD_init. cbn [A B C D]. real_num.
  set (g := sqrt (n2' / n0)).
  assert (Hg : g <> 0) by (apply Rgt_not_eq, sqrt_lt_R0, Hx).
  pose proof (sin2_cos2 (g * t)) as Hsc. unfold Rsqr in Hsc.
  rewrite <- Hsc. field. split; assumption.
Qed.

(** X17: two ducts of the same medium in a row act as one duct over the
    sum of the two lengths. *)
Theorem Duct_additive (t1 t2 n0 n2' : R) :
  n0 <> 0 -> 0 < n2' / n0 ->
  exists X1 X2 X12,
    Duct t1 n0 n2' no_kwargs = Ok X1 /\ Duct t2 n0 n2' no_kwargs = Ok X2
    /\ Duct (t1 + t2) n0 n2' no_kwargs = Ok X12
    /\ attributes (matmul_ABCD X1 X2) = attributes X12.
Proof.
  intros Hn Hx. rewrite !(Duct_R _ _ _ _ Hn Hx).
  eexists _, _, _. repeat (split; [reflexivity|]).
  unfold attributes, coefficients. rewrite matmul_ABCD_attrs.
  unfold ABCD_init. simpl. real_num.
  set (g := sqrt (n2' / n0)).
  assert (Hg : g <> 0) by (apply Rgt_not_eq, sqrt_lt_R0, Hx).
  replace (g * (t1 + t2)) with (g * t1 + g * t2) by ring.
  rewrite cos_plus, sin_plus.
  repeat apply (f_equal2 pair); field; auto.
Qed.

(** X18: a duct without gradient, [n2 = 0], is not the free-space
    transfer: the constructor raises [ZeroDivisionError], at [n2 / n0] if
    [n0 = 0] and at the division by [n0 * g] otherwise.  A negative
    [n2 / n0] is a [TypeError]. *)
Theorem Duct_errors (t n0 : R) (kw : kwargs R) :
  Duct t n0 0 kw = Raise ZeroDivisionError
  /\ forall n2', n0 <> 0 -> n2' / n0 < 0 -> Duct t n0 n2' kw = Raise TypeError.
Proof.
  split.
  - unfold Duct. destruct (Req_dec_T n0 0) as [->|Hn].
    + rewrite pdiv_R_zero. reflexivity.
    + rewrite (pdiv_R _ _ Hn). cbn [rbind]. real_num.
      replace (0 / n0) with 0 by (field; exact Hn).
      destruct (Rlt_dec 0 0) as [Hlt|_]; [lra|].
      rewrite sqrt_0, Rmult_0_r, pdiv_R_zero. reflexivity.
  - intros n2' Hn Hx. unfold Duct. rewrite (pdiv_R _ _ Hn). cbn [rbind].
    real_num. destruct (Rlt_dec (n2' / n0) 0) as [_|Hge]; [reflexivity|lra].
Qed.

(** X19: [Grating] only looks at the sign of its [sign] argument: any
    [sign >= 0] acts as [1] and any negative one as [-1]. *)
Theorem Grating_sign (Rd m d l0 AOI sign : R) (T_or_S : string)
    (kw : kwargs R) :
  (0 <= sign ->
   Grating Rd m d l0 AOI T_or_S sign kw = Grating Rd m d l0 AOI T_or_S 1 kw)
  /\ (sign < 0 ->
      Grating Rd m d l0 AOI T_or_S sign kw
      = Grating Rd m d l0 AOI T_or_S (-1) kw).
Proof.
  split; intros Hs; unfold Grating; real_num.
  - destruct (Rle_dec 0 sign); [|lra]. destruct (Rle_dec 0 1); [|lra].
    reflexivity.
  - destruct (Rle_dec 0 sign); [lra|]. destruct (Rle_dec 0 (-1)); [lra|].
    reflexivity.
Qed.

(** The angle of exit of the order 0 has the cosine of the angle of
    incidence. *)
Lemma Grating_order_zero_AOE (d l0 AOI s : R) :
  d <> 0 -> - (PI / 2) < AOI < PI / 2 -> s = 1 \/ s = -1 ->
  exists AOE, R_asin (0 * l0 / d + s * sin AOI) = Ok AOE
              /\ cos AOE = cos AOI.
Proof.
  intros Hd HA Hs. pose proof (SIN_bound AOI) as [Hlo Hhi].
  replace (0 * l0 / d) with 0 by (field; exact Hd). rewrite Rplus_0_l.
  unfold R_asin. destruct Hs as [-> | ->].
  - rewrite Rmult_1_l.
    destruct (Rle_dec (-1) (sin AOI)); [|lra].
    destruct (Rle_dec (sin AOI) 1); [|lra].
    eexists. split; [reflexivity|]. rewrite asin_sin by lra. reflexivity.
  - replace (-1 * sin AOI) with (sin (- AOI)) by (rewrite sin_neg; ring).
    pose proof (SIN_bound (- AOI)) as [Hlo' Hhi'].
    destruct (Rle_dec (-1) (sin (- AOI))); [|lra].
    destruct (Rle_dec (sin (- AOI)) 1); [|lra].
    eexists. split; [reflexivity|]. rewrite asin_sin by lra. apply cos_neg.
Qed.

(** X20: in the order [m = 0] a grating is a mirror: for an angle of
    incidence strictly between [-pi/2] and [pi/2], in exact arithmetic,
    [Grating(R, m=0, ...)] builds the operator of [Mirror(R, AOI, ...)] in
    the same plane, whatever the line spacing, the wavelength and the
    sign convention are. *)
Theorem Grating_order_zero_is_Mirror (Rd d l0 AOI sign : R)
    (T_or_S : string) (kw : kwargs R) :
  Rd <> 0 -> d <> 0 -> - (PI / 2) < AOI < PI / 2 ->
  str_lower T_or_S = "t"%string \/ str_lower T_or_S = "s"%string ->
  exists X,
    Grating Rd 0 d l0 AOI T_or_S sign kw = Ok X
    /\ Mirror Rd AOI T_or_S kw = Ok X.
Proof.
  intros HRd Hd HA Hs.
  assert (Hc : 0 < cos AOI) by (apply cos_gt_0; lra).
  assert (Hc0 : cos AOI <> 0) by lra.
  assert (Hsign : (if pgeb sign (pzero : R) then (pone : R) else (- pone)%num) = 1
                  \/ (if pgeb sign (pzero : R) then (pone : R) else (- pone)%num) = -1).
  { real_num. destruct (Rle_dec 0 sign); [left; reflexivity|right; ring]. }
  destruct (Grating_order_zero_AOE d l0 AOI _ Hd HA Hsign) as (AOE & Hasin & Hcos).
  assert (Hcc : cos AOI + cos AOI <> 0) by lra.
  assert (HM : cos AOI / cos AOI <> 0).
  { replace (cos AOI / cos AOI) with 1 by (field; exact Hc0). lra. }
  destruct Hs as [Hs|Hs].
  - rewrite (Grating_t _ _ _ _ _ _ _ _ Hs), (Mirror_t _ _ _ _ Hs).
    cbv zeta. rewrite (pdiv_R _ _ Hd). cbn [rbind].
    change (@math_asin R R_trig) with R_asin.
    change (@math_sin R R_trig) with sin. change (@math_cos R R_trig) with cos.
    change (@padd R R_num) with Rplus. change (@pmul R R_num) with Rmult.
    rewrite Hasin. cbn [rbind]. rewrite Hcos.
    rewrite (pdiv_R _ _ Hcc). cbn [rbind].
    rewrite (pdiv_R _ _ Hc0). cbn [rbind].
    assert (HRt : ptwo * Rd * cos AOI * cos AOI / (cos AOI + cos AOI) <> 0).
    { unfold ptwo. real_num.
      replace ((1 + 1) * Rd * cos AOI * cos AOI / (cos AOI + cos AOI))
        with (Rd * cos AOI) by (field; repeat split; assumption).
      apply Rmult_integral_contrapositive_currified; assumption. }
    rewrite (pdiv_R _ _ HRt). cbn [rbind].
    rewrite (pdiv_R _ _ HM). cbn [rbind].
    assert (HRe : Rd * cos AOI <> 0)
      by (apply Rmult_integral_contrapositive_currified; assumption).
    rewrite (pdiv_R _ _ HRe). cbn [rbind].
    eexists. split; [reflexivity|]. unfold ptwo. real_num.
    do 2 f_equal; field; repeat split; assumption.
  - rewrite (Grating_s _ _ _ _ _ _ _ _ Hs), (Mirror_s _ _ _ _ Hs).
    cbv zeta. rewrite (pdiv_R _ _ Hd). cbn [rbind].
    change (@math_asin R R_trig) with R_asin.
    change (@math_sin R R_trig) with sin. change (@math_cos R R_trig) with cos.
    change (@padd R R_num) with Rplus. change (@pmul R R_num) with Rmult.
    rewrite Hasin. cbn [rbind]. rewrite Hcos.
    rewrite (pdiv_R _ _ Hcc). cbn [rbind].
    assert (HRs : ptwo * Rd / (cos AOI + cos AOI) <> 0).
    { unfold ptwo. real_num.
      replace ((1 + 1) * Rd / (cos AOI + cos AOI))
        with (Rd / cos AOI) by (field; repeat split; assumption).
      unfold Rdiv. apply Rmult_integral_contrapositive_currified;
        [assumption|apply Rinv_neq_0_compat; assumption]. }
    rewrite (pdiv_R _ _ HRs). cbn [rbind].
    rewrite (pdiv_R _ _ Hc0). cbn [rbind].
    assert (HRe : Rd / cos AOI <> 0).
    { unfold Rdiv. apply Rmult_integral_contrapositive_currified;
        [assumption|apply Rinv_neq_0_compat; assumption]. }
    rewrite (pdiv_R _ _ HRe). cbn [rbind].
    eexists. split; [reflexivity|]. unfold ptwo. real_num.
    do 2 f_equal; field; repeat split; assumption.
Qed.

(** *** Gaussian beams over exact complex numbers *)

(** The reciprocal of a complex number other than 0. *)
Lemma complex_reciprocal (b : complex R) :
  re b <> 0 \/ im b <> 0 ->
  let N := re b * re b + im b * im b in
  pdiv pone b = Ok (mkComplex (re b / N) (- im b / N))
  /\ (re b / N <> 0 \/ - im b / N <> 0)
  /\ pdiv pone (mkComplex (re b / N) (- im b / N)) = Ok b.
Proof.
  destruct b as [x y0]. cbn [re im]. intros Hb. cbv zeta.
  set (N := x * x + y0 * y0).
  assert (HN : N <> 0) by (apply sum_squares_nonzero; exact Hb).
  assert (Hinv : x / N <> 0 \/ - y0 / N <> 0).
  { destruct Hb as [Hb|Hb]; [left|right]; intros H0; apply Hb;
      apply (Rmult_eq_compat_r N) in H0; field_simplify in H0; lra. }
  assert (HNN : x / N * (x / N) + - y0 / N * (- y0 / N) <> 0)
    by (apply sum_squares_nonzero; exact Hinv).
  split; [|split; [exact Hinv|]].
  - rewrite pdiv_complex by exact Hb. f_equal.
    apply complex_eq; real_num; fold N; field; exact HN.
  - rewrite pdiv_complex by exact Hinv. f_equal.
    apply complex_eq; real_num.
    + apply (Rmult_eq_reg_r (x / N * (x / N) + - y0 / N * (- y0 / N)));
        [|exact HNN].
      unfold Rdiv at 1. rewrite Rmult_assoc, Rinv_l by exact HNN.
      unfold N. field. exact HN.
    + apply (Rmult_eq_reg_r (x / N * (x / N) + - y0 / N * (- y0 / N)));
        [|exact HNN].
      unfold Rdiv at 1. rewrite Rmult_assoc, Rinv_l by exact HNN.
      unfold N. field. exact HN.
Qed.

Lemma pdiv_complex_zero (a : complex R) :
  pdiv a (mkComplex 0 0) = Raise ZeroDivisionError.
Proof.
  unfold pdiv. simpl. unfold c_truediv. simpl. unfold R_truediv.
  destruct (Req_dec_T (0 * 0 + 0 * 0) 0) as [_|H]; [reflexivity|].
  exfalso. apply H. ring.
Qed.

(** X21: a beam built from its physical parameter [q] gives [q] back, in
    exact arithmetic and in a medium of any index [n <> 0]: the property
    [q] of [GaussianBeam(q=q0, n=n0)] is [q0], so [z] and [zR] are its
    real and imaginary parts.  The argument [q] wins over every other
    argument that passes the test of [w] and [zR] against zero. *)
Theorem GaussianBeam_from_q (equations : solvers R (complex R))
    (l0 n0 sign : R) (q0 : complex R) (R0 : option (xnum R))
    (w z1 zR1 : option R) :
  n0 <> 0 -> re q0 <> 0 \/ im q0 <> 0 ->
  opt_is_zero w || opt_is_zero zR1 = false ->
  exists gb,
    GaussianBeam_init equations (mkGbArgs l0 n0 sign (Some q0) R0 w z1 zR1)
    = Ok gb
    /\ sources.q gb = Ok q0
    /\ sources.z gb = Ok (re q0) /\ sources.zR gb = Ok (im q0)
    /\ n gb = n0 /\ lam0 gb = l0.
Proof.
  intros Hn Hq Hvalid. unfold GaussianBeam_init, GaussianBeam_qr.
  cbn [arg_q arg_R arg_w arg_z arg_zR arg_n arg_lam0]. rewrite Hvalid.
  rewrite pdiv_complex by (left; exact Hn). cbn [rbind].
  match goal with
  | |- context [pdiv pone (coerce n0 * ?qr)%num] =>
      assert (Hqr : (coerce n0 * qr)%num = q0)
  end.
  { destruct q0 as [x y0]. apply complex_eq; real_num; field; exact Hn. }
  rewrite Hqr.
  destruct (complex_reciprocal q0 Hq) as (Hinv & _ & Hback).
  cbv zeta in Hinv, Hback. rewrite Hinv. cbn [rbind].
  eexists. split; [reflexivity|].
  unfold sources.z, sources.zR, sources.q. cbn [y u n lam0].
  rewrite Hback. cbn [rbind]. repeat split; reflexivity.
Qed.

(** X22: the radius of curvature [R] of a beam never raises: it is
    [math.inf] when [q] cannot be computed and at the waist
    ([z = Re q = 0]), and [z + zR^2 / z] elsewhere. *)
Theorem GaussianBeam_R_cases (gb : Ray R (complex R)) :
  (sources.q gb = Raise ZeroDivisionError -> GaussianBeam_R gb = Ok PosInf)
  /\ (forall zR0, sources.q gb = Ok (mkComplex 0 zR0) ->
        GaussianBeam_R gb = Ok PosInf)
  /\ (forall z0 zR0, z0 <> 0 -> sources.q gb = Ok (mkComplex z0 zR0) ->
        GaussianBeam_R gb = Ok (Finite (z0 + zR0 * zR0 / z0))).
Proof.
  split; [|split].
  - intros Hq. unfold GaussianBeam_R. rewrite Hq. reflexivity.
  - intros zR0 Hq. unfold GaussianBeam_R. rewrite Hq. cbn [rbind].
    destruct (Req_dec_T zR0 0) as [->|HzR].
    + rewrite pdiv_complex_zero. reflexivity.
    + destruct (complex_reciprocal (mkComplex 0 zR0)) as (Hinv & _ & _);
        [right; exact HzR|].
      cbv zeta in Hinv. cbn [re im] in Hinv. rewrite Hinv. cbn [rbind].
      real_num. replace (0 / (0 * 0 + zR0 * zR0)) with 0 by (field; nra).
      rewrite pdiv_R_zero. reflexivity.
  - intros z0 zR0 Hz Hq. unfold GaussianBeam_R. rewrite Hq. cbn [rbind].
    destruct (complex_reciprocal (mkComplex z0 zR0)) as (Hinv & _ & _);
      [left; exact Hz|].
    cbv zeta in Hinv. cbn [re im] in Hinv. rewrite Hinv. cbn [rbind].
    real_num.
    assert (HN : z0 * z0 + zR0 * zR0 <> 0) by nra.
    assert (Hre : z0 / (z0 * z0 + zR0 * zR0) <> 0).
    { unfold Rdiv. apply Rmult_integral_contrapositive_currified;
        [exact Hz|apply Rinv_neq_0_compat; exact HN]. }
    rewrite (pdiv_R _ _ Hre). cbn [rbind try_except_ZeroDivisionError].
    do 2 f_equal. field. split; assumption.
Qed.

Lemma Rdiv_neq_0 (a b : R) : a <> 0 -> b <> 0 -> a / b <> 0.
Proof.
  intros Ha Hb. unfold Rdiv. apply Rmult_integral_contrapositive_currified;
    [exact Ha|apply Rinv_neq_0_compat; exact Hb].
Qed.

(** X23: a flat interface [ABCD(n1=m1, n2=m2)] applied to a beam in a
    medium of index [n] scales the beam parameter by [m2 / n], in exact
    arithmetic: the returned beam has [z' = (m2 / n) * z] and
    [zR' = (m2 / n) * zR], and the same waist radius [w0].  The index that
    counts is the one stored in the beam, not [n1] of the operator. *)
Theorem flat_interface (gb : Ray R (complex R)) (m1 m2 : R) :
  n gb <> 0 -> m2 <> 0 -> re (u gb) <> 0 \/ im (u gb) <> 0 ->
  let glass :=
    ABCD_init 1 0 0 1
      (mkKwargs (Some m1) (Some m2) None None None None None) in
  exists (u' q1 : complex R),
    matmul_u glass gb = Ok u' /\ sources.q gb = Ok q1
    /\ let gb2 := mkRay (cls gb) (matmul_y glass gb) u' m2 (lam0 gb) in
       sources.z gb2 = Ok (m2 / n gb * re q1)
       /\ sources.zR gb2 = Ok (m2 / n gb * im q1)
       /\ sources.w0 gb2 = sources.w0 gb.
Proof.
  intros Hn Hm Hu glass.
  destruct gb as [c [y1 y2] [u1 u2] n0 l0]. cbn [n u re im] in Hn, Hu.
  assert (HN : u1 * u1 + u2 * u2 <> 0) by (apply sum_squares_nonzero; exact Hu).
  set (gb := mkRay c (mkComplex y1 y2) (mkComplex u1 u2) n0 l0).
  assert (Hq : sources.q gb
               = Ok (mkComplex ((y1 * u1 + y2 * u2) / (u1 * u1 + u2 * u2))
                               ((y2 * u1 - y1 * u2) / (u1 * u1 + u2 * u2)))).
  { unfold sources.q, gb. cbn [y u]. rewrite pdiv_complex by exact Hu.
    reflexivity. }
  assert (Hu' : matmul_u glass gb
                = Ok (mkComplex (n0 * u1 / m2) (n0 * u2 / m2))).
  { unfold matmul_u, gb, glass, ABCD_init.
    cbn [C D F n2 y u n kw_n1 kw_n2 kw_disp kw_tilt kw_length kw_E kw_F
         default from_option Datatypes.id].
    rewrite pdiv_complex by (left; exact Hm). f_equal.
    apply complex_eq; real_num; field; exact Hm. }
  assert (Hy' : matmul_y glass gb = mkComplex y1 y2).
  { unfold matmul_y, gb, glass, ABCD_init.
    cbn [A B E n1 y u n kw_n1 kw_n2 kw_disp kw_tilt kw_length kw_E kw_F
         default from_option Datatypes.id].
    apply complex_eq; real_num; ring. }
  assert (Hu2 : n0 * u1 / m2 <> 0 \/ n0 * u2 / m2 <> 0).
  { destruct Hu as [Hu|Hu]; [left|right]; apply Rdiv_neq_0; try exact Hm;
      apply Rmult_integral_contrapositive_currified; assumption. }
  eexists _, _. split; [exact Hu'|]. split; [exact Hq|]. cbv zeta.
  rewrite Hy'.
  assert (Hq2 : sources.q
                  (mkRay c (mkComplex y1 y2)
                     (mkComplex (n0 * u1 / m2) (n0 * u2 / m2)) m2 l0)
                = Ok (mkComplex
                        (m2 / n0 * ((y1 * u1 + y2 * u2) / (u1 * u1 + u2 * u2)))
                        (m2 / n0 * ((y2 * u1 - y1 * u2) / (u1 * u1 + u2 * u2))))).
  { unfold sources.q. cbn [y u]. rewrite pdiv_complex by exact Hu2.
    f_equal. apply complex_eq; real_num; field; repeat split; try assumption.
    all: intros H0; apply HN; nra. }
  subst gb. cbn [cls lam0].
  unfold sources.w0, sources.zR, sources.z. rewrite Hq2, Hq.
  cbn [rbind real imag complex_parts re im lam0 n].
  repeat split.
  assert (HPI : PI <> 0) by (apply Rgt_not_eq, PI_RGT_0).
  change (@math_pi R R_math) with PI. change (@pow_half R R_math) with sqrt.
  rewrite !pdiv_R by (apply Rmult_integral_contrapositive_currified; assumption).
  cbn [rbind]. do 2 f_equal. real_num. field. repeat split; assumption.
Qed.

(** X25: free space in a medium of any index [n <> 0]: the operator
    [ABCD(B=L/n, n1=n, n2=n)] applied to a beam in that medium moves the
    beam parameter from [q] to [q + L], in exact arithmetic: the returned
    beam has [z' = z + L], [zR' = zR] and the same waist radius [w0]. *)
Theorem free_space_any_medium (gb : Ray R (complex R)) (L : R) :
  n gb <> 0 -> re (u gb) <> 0 \/ im (u gb) <> 0 ->
  let fs :=
    ABCD_init 1 (L / n gb) 0 1
      (mkKwargs (Some (n gb)) (Some (n gb)) None None None None None) in
  exists (u' q1 : complex R),
    matmul_u fs gb = Ok u' /\ sources.q gb = Ok q1
    /\ let gb2 := mkRay (cls gb) (matmul_y fs gb) u' (n gb) (lam0 gb) in
       sources.z gb2 = Ok (re q1 + L)
       /\ sources.zR gb2 = Ok (im q1)
       /\ sources.w0 gb2 = sources.w0 gb.
Proof.
  intros Hn Hu fs.
  destruct gb as [c [y1 y2] [u1 u2] n0 l0]. cbn [n u re im] in Hn, Hu, fs.
  assert (HN : u1 * u1 + u2 * u2 <> 0) by (apply sum_squares_nonzero; exact Hu).
  set (gb := mkRay c (mkComplex y1 y2) (mkComplex u1 u2) n0 l0).
  assert (Hq : sources.q gb
               = Ok (mkComplex ((y1 * u1 + y2 * u2) / (u1 * u1 + u2 * u2))
                               ((y2 * u1 - y1 * u2) / (u1 * u1 + u2 * u2)))).
  { unfold sources.q, gb. cbn [y u]. rewrite pdiv_complex by exact Hu.
    reflexivity. }
  assert (Hu' : matmul_u fs gb = Ok (mkComplex u1 u2)).
  { unfold matmul_u, gb, fs, ABCD_init.
    cbn [C D F n2 y u n kw_n1 kw_n2 kw_disp kw_tilt kw_length kw_E kw_F
         default from_option Datatypes.id].
    rewrite pdiv_complex by (left; exact Hn). f_equal.
    apply complex_eq; real_num; field; exact Hn. }
  assert (Hy' : matmul_y fs gb = mkComplex (y1 + L * u1) (y2 + L * u2)).
  { unfold matmul_y, gb, fs, ABCD_init.
    cbn [A B E n1 y u n kw_n1 kw_n2 kw_disp kw_tilt kw_length kw_E kw_F
         default from_option Datatypes.id].
    apply complex_eq; real_num; field; exact Hn. }
  eexists _, _. split; [exact Hu'|]. split; [exact Hq|]. cbv zeta.
  rewrite Hy'.
  assert (Hq2 : sources.q
                  (mkRay c (mkComplex (y1 + L * u1) (y2 + L * u2))
                     (mkComplex u1 u2) n0 l0)
                = Ok (mkComplex
                        ((y1 * u1 + y2 * u2) / (u1 * u1 + u2 * u2) + L)
                        ((y2 * u1 - y1 * u2) / (u1 * u1 + u2 * u2)))).
  { unfold sources.q. cbn [y u]. rewrite pdiv_complex by exact Hu.
    f_equal. apply complex_eq; real_num; field; exact HN. }
  subst gb. cbn [cls lam0 n].
  unfold sources.w0, sources.zR, sources.z. rewrite Hq2, Hq.
  cbn [rbind real imag complex_parts re im lam0 n].
  repeat split.
Qed.

(** X26: a ray sent in place ([r @= X]) through a flat interface into a
    medium of index [m] and then through a flat interface back into its
    own medium is the ray it was, in exact arithmetic: in between its
    angle is [n * u / m], and the original object is still in the
    store. *)
Theorem Ray_imatmul_round_trip (h : gmap loc (obj R R)) (lr lg la : loc)
    (r : Ray R R) (glass air : ABCD R) :
  h !! lr = Some (ORay r) ->
  h !! lg = Some (OABCD glass) -> h !! la = Some (OABCD air) ->
  coefficients glass = (1, 0, 0, 1, 0, 0) ->
  coefficients air = (1, 0, 0, 1, 0, 0) ->
  n2 glass <> 0 -> n2 air = n r -> n r <> 0 ->
  exists l1 h1 l2 h2 r1,
    Ray_imatmul lr lg h = Ok (VObj l1, h1)
    /\ h1 !! l1 = Some (ORay r1)
    /\ u r1 = n r * u r / n2 glass /\ n r1 = n2 glass
    /\ Ray_imatmul l1 la h1 = Ok (VObj l2, h2)
    /\ h2 !! l2 = Some (ORay r)
    /\ h2 !! lr = Some (ORay r).
Proof.
  intros Hr Hg Ha Hcg Hca Hm Hn2 Hn.
  destruct r as [c y0 u0 n0 l0]. cbn [n u] in *.
  destruct glass as [gA gB gC gD gE gF gn1 m].
  destruct air as [aA aB aC aD aE aF an1 an2].
  unfold coefficients in Hcg, Hca. cbn [A B C D E F n2] in *.
  injection Hcg as -> -> -> -> -> ->. injection Hca as -> -> -> -> -> ->.
  subst an2.
  set (glass := mkABCD 1 0 0 1 0 0 gn1 m) in *.
  set (air := mkABCD 1 0 0 1 0 0 an1 n0) in *.
  set (r := mkRay c y0 u0 n0 l0) in *.
  assert (Hu1 : matmul_u glass r = Ok (n0 * u0 / m)).
  { unfold matmul_u, glass, r. cbn [C D F n2 y u n].
    rewrite (pdiv_R _ _ Hm). f_equal. real_num. field. exact Hm. }
  assert (Hy1 : matmul_y glass r = y0).
  { unfold matmul_y, glass, r. cbn [A B E y u n]. real_num. ring. }
  set (r1 := mkRay c y0 (n0 * u0 / m) m l0).
  set (h1 := <[fresh (dom h) := ORay r1]> h).
  assert (H1 : Ray_imatmul lr lg h = Ok (VObj (fresh (dom h)), h1)).
  { unfold Ray_imatmul.
    rewrite (ABCD_matmul_ray_store h lg lr glass r _ Hg Hr Hu1).
    rewrite Hy1. reflexivity. }
  assert (Hl1 : h1 !! fresh (dom h) = Some (ORay r1))
    by apply lookup_insert_eq.
  assert (Ha1 : h1 !! la = Some (OABCD air)).
  { unfold h1. rewrite lookup_insert_ne; [exact Ha|].
    apply not_eq_sym. exact (fresh_lookup_ne _ _ _ Ha). }
  assert (Hu2 : matmul_u air r1 = Ok u0).
  { unfold matmul_u, air, r1. cbn [C D F n2 y u n].
    rewrite (pdiv_R _ _ Hn). f_equal. real_num. field. split; assumption. }
  assert (Hy2 : matmul_y air r1 = y0).
  { unfold matmul_y, air, r1. cbn [A B E y u n]. real_num. ring. }
  exists (fresh (dom h)), h1, (fresh (dom h1)),
    (<[fresh (dom h1) := ORay r]> h1), r1.
  split; [exact H1|]. split; [exact Hl1|].
  split; [reflexivity|]. split; [reflexivity|]. split; [|split].
  - unfold Ray_imatmul.
    rewrite (ABCD_matmul_ray_store h1 la _ air r1 _ Ha1 Hl1 Hu2).
    rewrite Hy2. reflexivity.
  - apply lookup_insert_eq.
  - assert (Hr1 : h1 !! lr = Some (ORay r)).
    { unfold h1. rewrite lookup_insert_ne; [exact Hr|].
      apply not_eq_sym. exact (fresh_lookup_ne _ _ _ Hr). }
    rewrite lookup_insert_ne; [exact Hr1|].
    apply not_eq_sym. exact (fresh_lookup_ne _ _ _ Hr1).
Qed.

(** X28: with [q] given, a zero index or a zero [q] is not reported as an
    invalid argument: the constructor raises [ZeroDivisionError], at
    [q / n] when [n = 0] and at [1 / (n * qr)] when [q = 0]. *)
Theorem GaussianBeam_from_q_errors (equations : solvers R (complex R))
    (l0 n0 sign : R) (q0 : complex R) (R0 : option (xnum R))
    (w z1 zR1 : option R) :
  opt_is_zero w || opt_is_zero zR1 = false ->
  n0 = 0 \/ q0 = mkComplex 0 0 ->
  GaussianBeam_init equations (mkGbArgs l0 n0 sign (Some q0) R0 w z1 zR1)
  = Raise ZeroDivisionError.
Proof.
  intros Hvalid Hz. unfold GaussianBeam_init, GaussianBeam_qr.
  cbn [arg_q arg_R arg_w arg_z arg_zR arg_n arg_lam0]. rewrite Hvalid.
  destruct (Req_dec_T n0 0) as [->|Hn].
  - change (coerce (0 : R)) with (mkComplex (0 : R) 0).
    rewrite pdiv_complex_zero. reflexivity.
  - destruct Hz as [Hz | ->]; [contradiction|].
    rewrite pdiv_complex by (left; exact Hn). cbn [rbind].
    match goal with
    | |- context [pdiv pone (coerce n0 * ?qr)%num] =>
        assert (Hqr : (coerce n0 * qr)%num = mkComplex 0 0)
    end.
    { apply complex_eq; real_num; field; exact Hn. }
    rewrite Hqr, pdiv_complex_zero. reflexivity.
Qed.

(** X29: the waist radius and the divergence of a beam with [zR > 0] in a
    medium of index [n > 0], at a wavelength [λ0 > 0], satisfy
    [w0^2 = λ0 * zR / (n * pi)] and [w0 * θ = λ0 / (n * pi)]: their
    product does not depend on the beam. *)
Theorem beam_parameter_product (gb : Ray R (complex R)) (z0 zR0 : R) :
  sources.q gb = Ok (mkComplex z0 zR0) ->
  0 < lam0 gb -> 0 < n gb -> 0 < zR0 ->
  exists w th : R,
    sources.w0 gb = Ok w /\ sources.theta gb = Ok th
    /\ w * w = lam0 gb * zR0 / (n gb * PI)
    /\ w * th = lam0 gb / (n gb * PI).
Proof.
  intros Hq Hl Hn HzR. pose proof PI_RGT_0 as HPI.
  assert (HnPI : n gb * PI <> 0) by nra.
  assert (HzR0 : zR0 <> 0) by lra.
  assert (Hx : 0 <= lam0 gb * zR0 / (n gb * PI)).
  { apply Rlt_le. apply Rdiv_lt_0_compat; nra. }
  unfold sources.theta, sources.w0, sources.zR. rewrite Hq.
  cbn [rbind real imag complex_parts re im].
  change (@math_pi R R_math) with PI. change (@pow_half R R_math) with sqrt.
  change (@pmul R R_num) with Rmult.
  rewrite (pdiv_R _ _ HnPI). cbn [rbind]. rewrite (pdiv_R _ _ HzR0).
  eexists _, _. split; [reflexivity|]. split; [reflexivity|].
  pose proof (sqrt_sqrt _ Hx) as Hs. split; [exact Hs|].
  replace (sqrt (lam0 gb * zR0 / (n gb * PI))
           * (sqrt (lam0 gb * zR0 / (n gb * PI)) / zR0))
    with (sqrt (lam0 gb * zR0 / (n gb * PI))
          * sqrt (lam0 gb * zR0 / (n gb * PI)) / zR0)
    by (field; exact HzR0).
  rewrite Hs. field. split; [apply Rgt_not_eq; exact HPI|].
  split; [apply Rgt_not_eq; exact Hn|exact HzR0].
Qed.
End ExactReals.

(** ** The indices of a thick lens *)

Section ThickLensIndices.
Context {K : Type} {numK : PyNum K} {trigK : PyTrig K}.

Lemma ABCD_init_n1_n2_Ok (a b c d m1 m2 : K) (kw : kwargs K) (X : ABCD K) :
  ABCD_init_n1_n2 a b c d m1 m2 kw = Ok X ->
  n1 X = m1 /\ n2 X = m2 /\ C X = c.
Proof.
  unfold ABCD_init_n1_n2. destruct (kw_n1 kw), (kw_n2 kw); try discriminate.
  intros [= <-]. repeat split; reflexivity.
Qed.

Lemma Refraction_indices (R m1 m2 AOI : K) (T_or_S : string)
    (kw : kwargs K) (X : ABCD K) :
  Refraction R m1 m2 AOI T_or_S kw = Ok X -> n1 X = m1 /\ n2 X = m2.
Proof.
  unfold Refraction.
  destruct (pdiv _ m2); [|discriminate]. cbn [rbind].
  destruct (math_asin _); [|discriminate]. cbn [rbind].
  destruct (Refraction_plane _ _ _); [|discriminate]. cbn [rbind].
  destruct (pdiv _ _); [|discriminate]. cbn [rbind].
  destruct (pdiv _ R); [|discriminate]. cbn [rbind].
  intros H. apply ABCD_init_n1_n2_Ok in H. tauto.
Qed.

(** X24: whatever the number type is, a thick lens that [ThickLens]
    builds has the ambient index on both sides, [n1 = n2 = n_ambient],
    and therefore its two focal lengths [f1] and [f2] are the same
    value. *)
Theorem ThickLens_equal_focal_lengths (R1 R2 t n_glass n_ambient : K)
    (kw : kwargs K) (X : ABCD K) :
  ThickLens R1 R2 t n_glass n_ambient kw = Ok X ->
  n1 X = n_ambient /\ n2 X = n_ambient /\ f1 X = f2 X.
Proof.
  unfold ThickLens.
  destruct (Refraction R1 _ _ _ _ _) as [r1|] eqn:H1; [|discriminate].
  cbn [rbind]. destruct (Transfer _ _ _) as [t'|]; [|discriminate].
  cbn [rbind].
  destruct (Refraction R2 _ _ _ _ _) as [r2|] eqn:H2; [|discriminate].
  cbn [rbind]. intros H. apply ABCD_init_n1_n2_Ok in H as (Hn1 & Hn2 & _).
  apply Refraction_indices in H1 as [H1 _].
  apply Refraction_indices in H2 as [_ H2].
  rewrite !matmul_ABCD_attrs in Hn1, Hn2. cbn [n1 n2] in Hn1, Hn2.
  rewrite H1 in Hn1. rewrite H2 in Hn2.
  split; [exact Hn1|]. split; [exact Hn2|].
  unfold f1, f2. rewrite Hn1, Hn2. reflexivity.
Qed.
End ThickLensIndices.

(** ** Equality of operators *)

Section Equality.
Context {K : Type} {numK : PyNum K}.
Hypothesis peqb_eq : forall x y : K, (x == y)%num = true <-> x = y.

(** X27: where [==] on the numbers is equality, [X == Y] holds exactly
    when the six coefficients [A] to [F] agree; the indices [n1] and [n2]
    are not compared, so operators that differ in them only are equal. *)
Theorem ABCD_eq_coefficients (X Y : ABCD K) :
  (ABCD_eq X Y = true <-> coefficients X = coefficients Y)
  /\ forall m1 m2 : K,
       ABCD_eq X (mkABCD (A X) (B X) (C X) (D X) (E X) (F X) m1 m2) = true.
Proof.
  assert (H : forall Z, ABCD_eq X Z = true <-> coefficients X = coefficients Z).
  { intros Z. unfold ABCD_eq, coefficients.
    rewrite !andb_true_iff, !peqb_eq. split.
    - intros [[[[[-> ->] ->] ->] ->] ->]. reflexivity.
    - intros [= -> -> -> -> -> ->]. repeat split. }
  split; [apply H|]. intros m1 m2. apply H. reflexivity.
Qed.
End Equality.

(** * The further properties at concrete inputs *)

(** X1 at [op_example @ ray_example]. *)
Lemma matmul_allocates_only_witness :
  exists v h',
    ABCD_matmul 1%positive (VObj 2%positive) store_example = Ok (v, h')
    /\ (forall l o, store_example !! l = Some o -> h' !! l = Some o)
    /\ match v with
       | VNone => h' = store_example
       | VObj l =>
           store_example !! l = None
           /\ forall l', l' <> l -> h' !! l' = store_example !! l'
       end.
Proof.
  destruct (ABCD_matmul 1%positive (VObj 2%positive) store_example)
    as [[v h']|e] eqn:H.
  - exists v, h'. split; [reflexivity|].
    exact (matmul_allocates_only store_example 1%positive (VObj 2%positive)
             v h' H).
  - vm_compute in H. discriminate H.
Defined.

(** X2 at [X @= Y] with [X = op_example] and [Y = afocal_example], and at
    [X @= ray_example]. *)
Lemma ABCD_imatmul_reverses_witness :
  (exists l h',
     ABCD_imatmul 1%positive (VObj 3%positive) store_two_operators
     = Ok (VObj l, h')
     /\ store_two_operators !! l = None
     /\ h' !! l = Some (OABCD (matmul_ABCD afocal_example op_example))
     /\ h' !! 1%positive = Some (OABCD op_example)
     /\ h' !! 3%positive = Some (OABCD afocal_example))
  /\ ABCD_imatmul 1%positive (VObj 2%positive) store_two_operators
     = Raise TypeError.
Proof.
  destruct (ABCD_imatmul_reverses store_two_operators 1%positive) as [H1 H2].
  split.
  - exact (H1 3%positive op_example afocal_example eq_refl eq_refl).
  - exact (H2 2%positive ray_example eq_refl).
Defined.

(** X3 at [op_example.add_misalignments(0.5, 0.25, 2)]. *)
Lemma add_misalignments_as_init_witness :
  add_misalignments 1%positive 0.5%float 0.25%float 2%float store_example
  = Ok (VNone,
        <[1%positive :=
            OABCD (ABCD_init (A op_example) (B op_example) (C op_example)
                     (D op_example)
                     (mkKwargs (Some (n1 op_example)) (Some (n2 op_example))
                        (Some 0.5%float) (Some 0.25%float) (Some 2%float)
                        None None))]> store_example)
  /\ forall disp0 tilt0 length0,
       (let* vh := add_misalignments 1%positive disp0 tilt0 length0
                     store_example in
        add_misalignments 1%positive 0.5%float 0.25%float 2%float vh.2)%py
       = add_misalignments 1%positive 0.5%float 0.25%float 2%float
           store_example.
Proof.
  exact (add_misalignments_as_init store_example 1%positive op_example
           0.5%float 0.25%float 2%float eq_refl).
Defined.

(** Exact rationals and exact reals are commutative rings in which a
    quotient times the divisor is the dividend. *)
Lemma Qc_ring_theory : ring_theory (pzero : Qc) pone padd pmul psub pneg eq.
Proof.
  change (ring_theory 0%Qc 1%Qc Qcplus Qcmult Qcminus Qcopp eq). exact Qcrt.
Qed.

Lemma Qc_div_mul (a b c : Qc) : ptruediv a b = Some c -> (c * b)%num = a.
Proof.
  simpl. unfold Qc_truediv, Qc_eqb.
  destruct (Qeq_bool b 0%Qc) eqn:Hb; [discriminate|].
  intros [= <-]. apply Qeq_bool_neq in Hb.
  rewrite Qcmult_comm. apply Qcmult_div_r.
  intros ->. apply Hb. reflexivity.
Qed.

Lemma R_ring_theory : ring_theory (pzero : R) pone padd pmul psub pneg eq.
Proof.
  change (ring_theory 0%R 1%R Rplus Rmult Rminus Ropp eq).
  constructor; intros; ring.
Qed.

(** X4 on exact rationals, at [X = opq 1 2 3 4 5 6], [Y = opq 2 0 1 3 1 1]
    and the ray [Ray(1, 2, 3)]. *)
Lemma compose_then_apply_witness :
  exists u1 : Qc,
    matmul_u (opq 2 0 1 3 1 1) ray_Qc = Ok u1
    /\ let r1 := mkRay (cls ray_Qc) (matmul_y (opq 2 0 1 3 1 1) ray_Qc) u1
                   (n2 (opq 2 0 1 3 1 1)) (lam0 ray_Qc) in
       matmul_y (matmul_ABCD (opq 1 2 3 4 5 6) (opq 2 0 1 3 1 1)) ray_Qc
       = matmul_y (opq 1 2 3 4 5 6) r1
       /\ matmul_u (matmul_ABCD (opq 1 2 3 4 5 6) (opq 2 0 1 3 1 1)) ray_Qc
          = matmul_u (opq 1 2 3 4 5 6) r1.
Proof.
  destruct (matmul_u (opq 2 0 1 3 1 1) ray_Qc) as [u1|e] eqn:H.
  - exists u1. split; [reflexivity|].
    exact (compose_then_apply Qc_ring_theory (fun a b => eq_refl)
             (fun a b => eq_refl) Qc_div_mul
             (opq 1 2 3 4 5 6) (opq 2 0 1 3 1 1) ray_Qc u1 H).
  - vm_compute in H. discriminate H.
Defined.

(** X5 on exact rationals. *)
Lemma det_matmul_witness :
  ring_theory (pzero : Qc) pone padd pmul psub pneg eq
  /\ det (matmul_ABCD (opq 1 2 3 4 5 6) (opq 2 0 1 3 1 1))
     = (det (opq 1 2 3 4 5 6) * det (opq 2 0 1 3 1 1))%num
  /\ (det (opq 1 2 3 4 5 6) = pone -> det (opq 2 0 1 3 1 1) = pone ->
      det (matmul_ABCD (opq 1 2 3 4 5 6) (opq 2 0 1 3 1 1)) = pone).
Proof.
  split; [exact Qc_ring_theory|].
  exact (det_matmul Qc_ring_theory (opq 1 2 3 4 5 6) (opq 2 0 1 3 1 1)).
Defined.

(** X6 at [Transfer(3, 2)], [ThinLens(2)] and [Mirror(2)] over exact
    reals. *)
Lemma elements_unimodular_witness :
  (exists X : ABCD R, Transfer 3%R 2%R no_kwargs = Ok X /\ det X = pone)
  /\ (exists X : ABCD R, ThinLens 2%R no_kwargs = Ok X /\ det X = pone)
  /\ (exists X : ABCD R, Mirror 2%R 0%R "T" no_kwargs = Ok X /\ det X = pone).
Proof.
  assert (H2 : 2%R <> 0%R) by lra.
  assert (H21 : (2 * 1)%R <> 0%R) by lra.
  split; [|split].
  - assert (H : Transfer 3%R 2%R no_kwargs
                = Ok (ABCD_init pone (3 / 2)%R pzero pone no_kwargs))
      by (unfold Transfer; rewrite (pdiv_R _ _ H2); reflexivity).
    eexists. split; [exact H|].
    exact (proj1 (elements_unimodular R_ring_theory no_kwargs _) 3%R 2%R H).
  - assert (H : ThinLens 2%R no_kwargs
                = Ok (ABCD_init pone pzero (- pone / 2)%R pone no_kwargs))
      by (unfold ThinLens; rewrite (pdiv_R _ _ H2); reflexivity).
    eexists. split; [exact H|].
    exact (proj1 (proj2 (elements_unimodular R_ring_theory no_kwargs _))
             2%R H).
  - assert (H : Mirror 2%R 0%R "T" no_kwargs
                = Ok (ABCD_init pone pzero (ptwo / (2 * 1))%R pone no_kwargs)).
    { rewrite Mirror_t by reflexivity.
      change (@math_cos R R_trig 0%R) with (cos 0). rewrite cos_0.
      change (2 * 1)%num with (2 * 1)%R.
      rewrite (pdiv_R _ _ H21). reflexivity. }
    eexists. split; [exact H|].
    exact (proj2 (proj2 (elements_unimodular R_ring_theory no_kwargs _))
             2%R 0%R "T"%string H).
Defined.

(** X15 over exact reals, at the letters [t], [s] and [x]. *)
Lemma plane_letter_witness :
  ((forall m1 m2 : R, Refraction 1%R m1 m2 0%R "t" no_kwargs
                      = Refraction 1%R m1 m2 0%R "T" no_kwargs)
   /\ Mirror 1%R 0%R "t" no_kwargs = Mirror 1%R 0%R "T" no_kwargs
   /\ forall m d l0 sign : R,
        Grating 1%R m d l0 0%R "t" sign no_kwargs
        = Grating 1%R m d l0 0%R "T" sign no_kwargs)
  /\ ((forall m1 m2 : R, Refraction 1%R m1 m2 0%R "s" no_kwargs
                         = Refraction 1%R m1 m2 0%R "S" no_kwargs)
      /\ Mirror 1%R 0%R "s" no_kwargs = Mirror 1%R 0%R "S" no_kwargs
      /\ forall m d l0 sign : R,
           Grating 1%R m d l0 0%R "s" sign no_kwargs
           = Grating 1%R m d l0 0%R "S" sign no_kwargs)
  /\ Mirror 1%R 0%R "x" (no_kwargs (K := R))
     = Raise (ValueError "Unknown T_or_S: x").
Proof.
  split; [|split].
  - exact (proj1 (plane_letter "t" 1%R 0%R no_kwargs) eq_refl).
  - exact (proj1 (proj2 (plane_letter "s" 1%R 0%R no_kwargs)) eq_refl).
  - refine (proj1 (proj2 (proj2 (plane_letter "x" 1%R 0%R no_kwargs)) _ _));
      discriminate.
Defined.

(** X7 at a lens of power 2 between air and a medium of index 3/2. *)
Lemma cardinal_points_relations_witness :
  C lens_R <> 0%R
  /\ exists vF1 vP1 vN1 vf1 vF2 vP2 vN2 vf2 : R,
       (F1 lens_R = Ok (Finite vF1) /\ P1 lens_R = Ok (Finite vP1)
        /\ N1 lens_R = Ok (Finite vN1) /\ f1 lens_R = Ok (Finite vf1)
        /\ F2 lens_R = Ok (Finite vF2) /\ P2 lens_R = Ok (Finite vP2)
        /\ N2 lens_R = Ok (Finite vN2) /\ f2 lens_R = Ok (Finite vf2))
       /\ vP1 = (vF1 + vf1)%R /\ vP2 = (vF2 - vf2)%R
       /\ vN1 = (vF1 + vf2)%R /\ vN2 = (vF2 - vf1)%R
       /\ (n1 lens_R = n2 lens_R -> vf1 = vf2 /\ vN1 = vP1 /\ vN2 = vP2).
Proof.
  assert (H : C lens_R <> 0%R) by (simpl; lra).
  split; [exact H|]. exact (cardinal_points_relations lens_R H).
Defined.

(** X8 at [Transfer(1, 2) @ Transfer(3, 2)]. *)
Lemma Transfer_additive_witness :
  2%R <> 0%R
  /\ (exists X1 X2 X12 : ABCD R,
        Transfer 1%R 2%R no_kwargs = Ok X1
        /\ Transfer 3%R 2%R no_kwargs = Ok X2
        /\ Transfer (1 + 3)%R 2%R no_kwargs = Ok X12
        /\ attributes (matmul_ABCD X1 X2) = attributes X12)
  /\ forall kw : kwargs R, Transfer 1%R 0%R kw = Raise ZeroDivisionError.
Proof.
  assert (H : 2%R <> 0%R) by lra.
  split; [exact H|]. split.
  - exact (proj1 (Transfer_additive 1%R 3%R 2%R) H).
  - exact (proj2 (Transfer_additive 1%R 3%R 2%R)).
Defined.

(** X9 at [ThinLens(2)]. *)
Lemma ThinLens_cardinal_points_witness :
  2%R <> 0%R
  /\ exists X : ABCD R,
       ThinLens 2%R no_kwargs = Ok X
       /\ f1 X = Ok (Finite 2%R) /\ f2 X = Ok (Finite 2%R)
       /\ F1 X = Ok (Finite (- 2)%R) /\ F2 X = Ok (Finite 2%R)
       /\ P1 X = Ok (Finite 0%R) /\ P2 X = Ok (Finite 0%R)
       /\ N1 X = Ok (Finite 0%R) /\ N2 X = Ok (Finite 0%R).
Proof.
  assert (H : 2%R <> 0%R) by lra.
  split; [exact H|]. exact (proj1 (ThinLens_cardinal_points 2%R) H).
Defined.

(** X10 at the focal lengths 2 and 3. *)
Lemma ThinLens_in_contact_witness :
  exists Xa Xb Xab : ABCD R,
    ThinLens 2%R no_kwargs = Ok Xa /\ ThinLens 3%R no_kwargs = Ok Xb
    /\ ThinLens (2 * 3 / (2 + 3))%R no_kwargs = Ok Xab
    /\ attributes (matmul_ABCD Xa Xb) = attributes Xab
    /\ attributes (matmul_ABCD Xb Xa) = attributes Xab.
Proof.
  apply (ThinLens_in_contact 2%R 3%R); lra.
Defined.

(** X11 at [ThickLens(2, -3, 1, 3/2)] in air. *)
Lemma ThickLens_Gullstrand_witness :
  let phi1 := ((3 / 2 - 1) / 2)%R in
  let phi2 := ((1 - 3 / 2) / - 3)%R in
  let tau := (1 / (3 / 2))%R in
  exists X : ABCD R,
    ThickLens 2%R (- 3)%R 1%R (3 / 2)%R 1%R no_kwargs = Ok X
    /\ attributes X
       = ((1 - tau * phi1)%R, tau, (- (phi1 + phi2 - tau * phi1 * phi2))%R,
          (1 - tau * phi2)%R, 0%R, 0%R, 1%R, 1%R)
    /\ det X = 1%R.
Proof.
  apply (ThickLens_Gullstrand 2%R (- 3)%R 1%R (3 / 2)%R 1%R); lra.
Defined.

(** X12 at a surface of radius 2 between air and a medium of index 3/2, in
    the sagittal plane. *)
Lemma Refraction_normal_T_equals_S_witness :
  Refraction 2%R 1%R (3 / 2)%R 0%R "S" no_kwargs
  = Ok (mkABCD 1%R 0%R (- (3 / 2 - 1) / 2)%R 1%R 0%R 0%R 1%R (3 / 2)%R).
Proof.
  apply (Refraction_normal_T_equals_S 2%R 1%R (3 / 2)%R "S");
    [lra|lra|right; reflexivity].
Defined.

(** X13 from a medium of index 2 into air at grazing incidence. *)
Lemma Refraction_beyond_critical_angle_witness :
  Refraction 1%R 2%R 1%R (PI / 2)%R "T" (no_kwargs (K := R))
  = Raise (ValueError math_domain_error).
Proof.
  apply (Refraction_beyond_critical_angle 1%R 2%R 1%R (PI / 2)%R "T");
    [lra|left; rewrite sin_PI2; lra].
Defined.

(** X14 at radius 2 and normal incidence. *)
Lemma Mirror_planes_witness :
  (forall T_or_S,
     str_lower T_or_S = "t"%string \/ str_lower T_or_S = "s"%string ->
     Mirror 0%R 0%R T_or_S (no_kwargs (K := R)) = Raise ZeroDivisionError)
  /\ (Mirror 2%R 0%R "T" no_kwargs
      = Ok (ABCD_init 1%R 0%R (2 / (2 * cos 0))%R 1%R no_kwargs)
      /\ Mirror 2%R 0%R "S" no_kwargs
         = Ok (ABCD_init 1%R 0%R (2 * cos 0 / 2)%R 1%R no_kwargs))
  /\ Mirror 2%R 0%R "T" (no_kwargs (K := R)) = Mirror 2%R 0%R "S" no_kwargs.
Proof.
  assert (H2 : 2%R <> 0%R) by lra.
  assert (Hc : cos 0 <> 0%R) by (rewrite cos_0; lra).
  destruct (Mirror_planes 2%R 0%R no_kwargs) as (H0 & HTS & Hn).
  split; [exact H0|]. split; [exact (HTS H2 Hc)|exact (Hn H2)].
Defined.

(** X16 at [Duct(1, 1, 4)]. *)
Lemma Duct_unimodular_witness :
  exists X : ABCD R,
    Duct 1%R 1%R 4%R no_kwargs = Ok X /\ det X = 1%R /\ A X = D X.
Proof.
  apply (Duct_unimodular 1%R 1%R 4%R); lra.
Defined.

(** X17 at two ducts of lengths 1 and 2 with [n0 = 1], [n2 = 4]. *)
Lemma Duct_additive_witness :
  exists X1 X2 X12 : ABCD R,
    Duct 1%R 1%R 4%R no_kwargs = Ok X1 /\ Duct 2%R 1%R 4%R no_kwargs = Ok X2
    /\ Duct (1 + 2)%R 1%R 4%R no_kwargs = Ok X12
    /\ attributes (matmul_ABCD X1 X2) = attributes X12.
Proof.
  apply (Duct_additive 1%R 2%R 1%R 4%R); lra.
Defined.

(** X18 at [Duct(1, 2, 0)] and [Duct(1, 2, -1)]. *)
Lemma Duct_errors_witness :
  Duct 1%R 2%R 0%R (no_kwargs (K := R)) = Raise ZeroDivisionError
  /\ Duct 1%R 2%R (- 1)%R (no_kwargs (K := R)) = Raise TypeError.
Proof.
  destruct (Duct_errors 1%R 2%R no_kwargs) as [H0 Hneg].
  split; [exact H0|]. apply (Hneg (- 1)%R); lra.
Defined.

(** X19 at [sign = 5] and [sign = -1/2]. *)
Lemma Grating_sign_witness :
  Grating 1%R (- 1)%R 1%R (1 / 2)%R 0%R "T" 5%R (no_kwargs (K := R))
  = Grating 1%R (- 1)%R 1%R (1 / 2)%R 0%R "T" 1%R no_kwargs
  /\ Grating 1%R (- 1)%R 1%R (1 / 2)%R 0%R "T" (- (1 / 2))%R
       (no_kwargs (K := R))
     = Grating 1%R (- 1)%R 1%R (1 / 2)%R 0%R "T" (- 1)%R no_kwargs.
Proof.
  split.
  - apply (proj1 (Grating_sign 1%R (- 1)%R 1%R (1 / 2)%R 0%R 5%R "T"
                    no_kwargs)). lra.
  - apply (proj2 (Grating_sign 1%R (- 1)%R 1%R (1 / 2)%R 0%R (- (1 / 2))%R
                    "T" no_kwargs)). lra.
Defined.

(** X20 at normal incidence, in the tangential plane. *)
Lemma Grating_order_zero_is_Mirror_witness :
  exists X : ABCD R,
    Grating 2%R 0%R 1%R (1 / 2)%R 0%R "T" 1%R no_kwargs = Ok X
    /\ Mirror 2%R 0%R "T" no_kwargs = Ok X.
Proof.
  pose proof PI_RGT_0 as HPI.
  apply (Grating_order_zero_is_Mirror 2%R 1%R (1 / 2)%R 0%R 1%R "T");
    [lra|lra|lra|left; reflexivity].
Defined.

(** X21 at [GaussianBeam(q=10e-3 + 1e-3j, n=1.5)], for any solvers. *)
Lemma GaussianBeam_from_q_witness :
  (3 / 2)%R <> 0%R
  /\ forall equations : solvers R (complex R),
       exists gb : Ray R (complex R),
         GaussianBeam_init equations
           (mkGbArgs 532e-9%R (3 / 2)%R 1%R (Some (mkComplex 10e-3%R 1e-3%R))
                     None None None None)
         = Ok gb
         /\ sources.q gb = Ok (mkComplex 10e-3%R 1e-3%R)
         /\ sources.z gb = Ok (re (mkComplex 10e-3%R 1e-3%R))
         /\ sources.zR gb = Ok (im (mkComplex 10e-3%R 1e-3%R))
         /\ n gb = (3 / 2)%R /\ lam0 gb = 532e-9%R.
Proof.
  assert (Hn : (3 / 2)%R <> 0%R) by lra.
  split; [exact Hn|]. intros equations.
  apply (GaussianBeam_from_q equations 532e-9%R (3 / 2)%R 1%R
           (mkComplex 10e-3%R 1e-3%R) None None None None);
    [exact Hn|left; simpl; lra|reflexivity].
Defined.

Lemma q_beam_1_plus_i : sources.q beam_1_plus_i = Ok (mkComplex 1%R 1%R).
Proof.
  unfold sources.q, beam_1_plus_i, beam_R. cbn [y u].
  rewrite pdiv_complex by (left; simpl; lra). f_equal.
  apply complex_eq; simpl; field.
Qed.

Lemma q_beam_at_waist : sources.q beam_at_waist = Ok (mkComplex 0%R 1%R).
Proof.
  unfold sources.q, beam_at_waist, beam_R. cbn [y u].
  rewrite pdiv_complex by (right; simpl; lra). f_equal.
  apply complex_eq; simpl; field.
Qed.

(** X22 at a beam whose [u] is 0, at a beam at its waist ([q = i]) and at
    the beam with [q = 1 + i]. *)
Lemma GaussianBeam_R_cases_witness :
  GaussianBeam_R beam_u_zero = Ok PosInf
  /\ GaussianBeam_R beam_at_waist = Ok PosInf
  /\ GaussianBeam_R beam_1_plus_i = Ok (Finite (1 + 1 * 1 / 1)%R).
Proof.
  split; [|split].
  - apply (proj1 (GaussianBeam_R_cases beam_u_zero)).
    apply pdiv_complex_zero.
  - apply (proj1 (proj2 (GaussianBeam_R_cases beam_at_waist)) 1%R).
    exact q_beam_at_waist.
  - apply (proj2 (proj2 (GaussianBeam_R_cases beam_1_plus_i)) 1%R 1%R);
      [lra|exact q_beam_1_plus_i].
Defined.

(** X23 at the beam with [q = 1 + i] entering a medium of index 3/2. *)
Lemma flat_interface_witness :
  let glass :=
    ABCD_init 1%R 0%R 0%R 1%R
      (mkKwargs (Some 1%R) (Some (3 / 2)%R) None None None None None) in
  exists (u' q1 : complex R),
    matmul_u glass beam_1_plus_i = Ok u'
    /\ sources.q beam_1_plus_i = Ok q1
    /\ let gb2 := mkRay (cls beam_1_plus_i) (matmul_y glass beam_1_plus_i) u'
                    (3 / 2)%R (lam0 beam_1_plus_i) in
       sources.z gb2 = Ok (3 / 2 / n beam_1_plus_i * re q1)%R
       /\ sources.zR gb2 = Ok (3 / 2 / n beam_1_plus_i * im q1)%R
       /\ sources.w0 gb2 = sources.w0 beam_1_plus_i.
Proof.
  apply (flat_interface beam_1_plus_i 1%R (3 / 2)%R);
    [simpl; lra|lra|left; simpl; lra].
Defined.

(** X24 on binary64, at [ThickLens(50e-3, -50e-3, 5e-3, 1.5)] in air. *)
Lemma ThickLens_equal_focal_lengths_witness :
  exists X : ABCD float,
    ThickLens (trigK := trig_at_zero) 50e-3%float (- 50e-3)%float 5e-3%float
      1.5%float 1%float no_kwargs = Ok X
    /\ n1 X = 1%float /\ n2 X = 1%float /\ f1 X = f2 X.
Proof.
  destruct (ThickLens (trigK := trig_at_zero) 50e-3%float (- 50e-3)%float
              5e-3%float 1.5%float 1%float no_kwargs) as [X|e] eqn:H.
  - exists X. split; [reflexivity|].
    exact (ThickLens_equal_focal_lengths (trigK := trig_at_zero)
             50e-3%float (- 50e-3)%float 5e-3%float 1.5%float 1%float
             no_kwargs X H).
  - vm_compute in H. discriminate H.
Defined.

Lemma Qc_eqb_eq (x y : Qc) : (x == y)%num = true <-> x = y.
Proof.
  simpl. unfold Qc_eqb. rewrite Qeq_bool_iff. split.
  - apply Qc_is_canon.
  - intros ->. reflexivity.
Qed.

(** X27 on exact rationals. *)
Lemma ABCD_eq_coefficients_witness :
  (ABCD_eq (opq 1 2 3 4 5 6) (opq 2 0 1 3 1 1) = true
   <-> coefficients (opq 1 2 3 4 5 6) = coefficients (opq 2 0 1 3 1 1))
  /\ forall m1 m2 : Qc,
       ABCD_eq (opq 1 2 3 4 5 6)
         (mkABCD (A (opq 1 2 3 4 5 6)) (B (opq 1 2 3 4 5 6))
                 (C (opq 1 2 3 4 5 6)) (D (opq 1 2 3 4 5 6))
                 (E (opq 1 2 3 4 5 6)) (F (opq 1 2 3 4 5 6)) m1 m2) = true.
Proof.
  exact (ABCD_eq_coefficients Qc_eqb_eq (opq 1 2 3 4 5 6) (opq 2 0 1 3 1 1)).
Defined.

(** X25 at the beam with [q = 1 + i] and [L = 2]. *)
Lemma free_space_any_medium_witness :
  let fs :=
    ABCD_init 1%R (2 / n beam_1_plus_i)%R 0%R 1%R
      (mkKwargs (Some (n beam_1_plus_i)) (Some (n beam_1_plus_i))
                None None None None None) in
  exists (u' q1 : complex R),
    matmul_u fs beam_1_plus_i = Ok u' /\ sources.q beam_1_plus_i = Ok q1
    /\ let gb2 := mkRay (cls beam_1_plus_i) (matmul_y fs beam_1_plus_i) u'
                    (n beam_1_plus_i) (lam0 beam_1_plus_i) in
       sources.z gb2 = Ok (re q1 + 2)%R
       /\ sources.zR gb2 = Ok (im q1)
       /\ sources.w0 gb2 = sources.w0 beam_1_plus_i.
Proof.
  apply (free_space_any_medium beam_1_plus_i 2%R);
    [simpl; lra|left; simpl; lra].
Defined.

(** X26 on a store over exact reals: the ray [Ray(1, 2, 1)] at 1, the
    interface into a medium of index 3/2 at 2, the interface back into air
    at 3. *)
Lemma Ray_imatmul_round_trip_witness :
  let r := Ray_init 1%R 2%R 1%R 532e-9%R in
  let glass := mkABCD 1%R 0%R 0%R 1%R 0%R 0%R 1%R (3 / 2)%R in
  let air := mkABCD 1%R 0%R 0%R 1%R 0%R 0%R (3 / 2)%R 1%R in
  let h : gmap loc (obj R R) :=
    <[3%positive := OABCD air]>
      (<[2%positive := OABCD glass]> (<[1%positive := ORay r]> ∅)) in
  exists l1 h1 l2 h2 r1,
    Ray_imatmul 1%positive 2%positive h = Ok (VObj l1, h1)
    /\ h1 !! l1 = Some (ORay r1)
    /\ u r1 = (n r * u r / n2 glass)%R /\ n r1 = n2 glass
    /\ Ray_imatmul l1 3%positive h1 = Ok (VObj l2, h2)
    /\ h2 !! l2 = Some (ORay r)
    /\ h2 !! 1%positive = Some (ORay r).
Proof.
  intros r glass air h.
  apply (Ray_imatmul_round_trip h 1%positive 2%positive 3%positive r glass air);
    try reflexivity; simpl; lra.
Defined.

(** X28 at [GaussianBeam(q=1+1j, n=0)] and [GaussianBeam(q=0, n=1.5)],
    for any solvers. *)
Lemma GaussianBeam_from_q_errors_witness :
  (forall equations : solvers R (complex R),
     GaussianBeam_init equations
       (mkGbArgs 532e-9%R 0%R 1%R (Some (mkComplex 1%R 1%R))
                 None None None None)
     = Raise ZeroDivisionError)
  /\ (forall equations : solvers R (complex R),
        GaussianBeam_init equations
          (mkGbArgs 532e-9%R (3 / 2)%R 1%R (Some (mkComplex 0%R 0%R))
                    None None None None)
        = Raise ZeroDivisionError).
Proof.
  split; intros equations.
  - apply (GaussianBeam_from_q_errors equations 532e-9%R 0%R 1%R
             (mkComplex 1%R 1%R) None None None None);
      [reflexivity|left; reflexivity].
  - apply (GaussianBeam_from_q_errors equations 532e-9%R (3 / 2)%R 1%R
             (mkComplex 0%R 0%R) None None None None);
      [reflexivity|right; reflexivity].
Defined.

(** X29 at the beam with [q = 1 + i]. *)
Lemma beam_parameter_product_witness :
  exists w th : R,
    sources.w0 beam_1_plus_i = Ok w /\ sources.theta beam_1_plus_i = Ok th
    /\ (w * w)%R = (lam0 beam_1_plus_i * 1 / (n beam_1_plus_i * PI))%R
    /\ (w * th)%R = (lam0 beam_1_plus_i / (n beam_1_plus_i * PI))%R.
Proof.
  apply (beam_parameter_product beam_1_plus_i 1%R 1%R);
    [exact q_beam_1_plus_i|simpl; lra|simpl; lra|lra].
Defined.
